(** * Digest notifications: [sentry/digests/notifications.py]

    A shallow embedding of the digest builder: the key codec for targeted
    mail actions, the state fetcher and attacher, the chainable [Pipeline]
    and the stages [build_digest] assembles from it.

    Conventions.
    - A Python [dict] is an association list in insertion order with pairwise
      distinct keys; [OrderedDict] and [defaultdict] are the same lists.
    - A raised exception is a [Raise] result; nothing in the module catches.
    - Event objects are shared and mutated ([event.group = group]), so they
      live in a store indexed by reference; records hold references.
    - Logging is not modelled. *)

From Stdlib Require Import ZArith List String Ascii Bool Lia.
From Stdlib Require Import Sorted Permutation.
From Stdlib Require Import Decimal DecimalString DecimalPos DecimalZ.
Import ListNotations.

Local Open Scope Z_scope.

(** ** Exceptions and results *)

Inductive Exn : Type :=
| AssertionError (msg : string)
| KeyError (key : Z)
| IndexError
| AttributeError
| ValueError
| DoesNotExist.

Inductive Result (A : Type) : Type :=
| Ok (a : A)
| Raise (e : Exn).

Arguments Ok {A} a.
Arguments Raise {A} e.

Definition Result_bind {A B} (c : Result A) (k : A -> Result B) : Result B :=
  match c with
  | Ok a => k a
  | Raise e => Raise e
  end.

Declare Scope result_scope.
Delimit Scope result_scope with result.
Notation "x <- c ;; k" := (Result_bind c (fun x => k))
  (at level 61, c at next level, right associativity) : result_scope.

(** ** The Python builtins the module calls *)

Module Py.

(** [str(n)] for an integer: an optional minus sign and decimal digits. *)
Definition str (n : Z) : string := NilZero.string_of_int (Z.to_int n).

(** [int(s)] on the strings [str] produces and on any other optional
    minus sign followed by decimal digits; everything else is a
    [ValueError].  (Python also accepts a plus sign, surrounding blanks and
    underscores between digits; the module never builds such strings, and
    the properties use [int] on the text of an integer or on a string with
    a colon in it, which Python refuses as well.) *)
Definition int (s : string) : Result Z :=
  match NilZero.int_of_string s with
  | Some d => Ok (Z.of_int d)
  | None => Raise ValueError
  end.

(** [s.split(sep, maxsplit)] for a one-character separator. *)
Fixpoint split (sep : ascii) (s : string) (maxsplit : nat) {struct s}
  : list string :=
  match s with
  | EmptyString => [EmptyString]
  | String c s' =>
      match maxsplit with
      | O => [s]
      | S n =>
          if Ascii.eqb c sep then EmptyString :: split sep s' n
          else match split sep s' maxsplit with
               | [] => [String c EmptyString]
               | token :: rest => String c token :: rest
               end
      end
  end.

(** [sep in s]. *)
Fixpoint contains (sep : ascii) (s : string) : bool :=
  match s with
  | EmptyString => false
  | String c s' => Ascii.eqb c sep || contains sep s'
  end.

End Py.

(** ** Models referenced by the module *)

Module Project.
Record t : Type := { id : Z; slug : string }.
End Project.

(** The adapter [split_key_for_targeted_action] instantiates; it carries no
    data. *)
Inductive MailAdapter : Type := MailAdapter_new.

(** ** Key codec *)

Definition TARGETED_MAIL_ACTION_SYMBOL : string := "targeted_mail"%string.

(** [target_id=None] is the default of the source. *)
Definition unsplit_key_for_targeted_action
    (project : Project.t) (target_type : string) (target_id : option Z)
  : string :=
  let sanitised_target_id :=
    match target_id with Some n => n | None => -1 end in
  (TARGETED_MAIL_ACTION_SYMBOL ++ ":p:" ++ Py.str (Project.id project)
     ++ ":" ++ target_type ++ ":" ++ Py.str sanitised_target_id)%string.

Section KeyCodec.

(** [Project.objects.get(pk=...)], called with the text of the key's third
    segment; [DoesNotExist] when no project has that primary key. *)
Variable Project_objects_get : string -> Result Project.t.

Definition split_key_for_targeted_action (key : string)
  : Result (MailAdapter * Project.t * string * Z) :=
  match Py.split ":"%char key 4 with
  | [_; _; project_id; target_type; target_identifier_str] =>
      (project <- Project_objects_get project_id ;;
       target_identifier <- Py.int target_identifier_str ;;
       Ok (MailAdapter_new, project, target_type, target_identifier))%result
  | _ => Raise ValueError
  end.

End KeyCodec.

(** ** Data model *)

(** Modelled from the spec: [GroupStatus] is imported from [sentry.models];
    the spec names the statuses UNRESOLVED, RESOLVED and IGNORED. *)
Inductive GroupStatus : Type := UNRESOLVED | RESOLVED | IGNORED.

Definition GroupStatus_eqb (a b : GroupStatus) : bool :=
  match a, b with
  | UNRESOLVED, UNRESOLVED | RESOLVED, RESOLVED | IGNORED, IGNORED => true
  | _, _ => false
  end.

Module Group.
Record t : Type := {
  id : Z;
  project_id : Z;
  status : GroupStatus;
  project : option Project.t;
  event_count : Z;
  user_count : Z
}.

Definition set_project (group : t) (p : Project.t) : t :=
  {| id := id group; project_id := project_id group; status := status group;
     project := Some p;
     event_count := event_count group; user_count := user_count group |}.

Definition set_event_count (n : Z) (group : t) : t :=
  {| id := id group; project_id := project_id group; status := status group;
     project := project group;
     event_count := n; user_count := user_count group |}.

Definition set_user_count (n : Z) (group : t) : t :=
  {| id := id group; project_id := project_id group; status := status group;
     project := project group;
     event_count := event_count group; user_count := n |}.
End Group.

Module Rule.
Record t : Type := {
  id : Z;
  project_id : Z;
  project : option Project.t
}.

Definition set_project (rule : t) (p : Project.t) : t :=
  {| id := id rule; project_id := project_id rule; project := Some p |}.
End Rule.

(** Django model instances compare and hash by primary key; that is the key
    equality of every mapping keyed by a [Rule] or a [Group]. *)
Class Model (K : Type) : Type := pk : K -> Z.

#[export] Instance Rule_Model : Model Rule.t := Rule.id.
#[export] Instance Group_Model : Model Group.t := Group.id.

(** An event; [group = None] is the attribute not yet attached, and reading
    it then is an [AttributeError]. *)
Module Event.
Record t : Type := {
  event_id : string;
  group_id : Z;
  group : option Group.t
}.

Definition set_group (event : t) (g : Group.t) : t :=
  {| event_id := event_id event; group_id := group_id event; group := Some g |}.
End Event.

(** Events are objects: records refer to them, and [rewrite_record] writes
    their [group] attribute. *)
Definition EventRef : Type := nat.
Definition Store : Type := EventRef -> Event.t.

Definition Store_set (st : Store) (event : EventRef) (e : Event.t) : Store :=
  fun r => if Nat.eqb r event then e else st r.

(** [Notification = namedtuple("Notification", "event rules")]; [rules] holds
    rule ids in a stored record and [Rule] objects after [rewrite_record]. *)
Module Notification.
Record t (A : Type) : Type := { event : EventRef; rules : list A }.
Arguments event {A} _.
Arguments rules {A} _.
End Notification.

(** [Record = namedtuple("Record", "key value timestamp")], imported from
    [sentry.digests]; the timestamp is an epoch number the module only
    passes on. *)
Module Record_.
Record t (A : Type) : Type := {
  key : string;
  value : Notification.t A;
  timestamp : Z
}.
Arguments key {A} _.
Arguments value {A} _.
Arguments timestamp {A} _.
End Record_.

(** ** Store-passing computations that may raise *)

Definition M (A : Type) : Type := Store -> Result (A * Store).

Definition ret {A} (a : A) : M A := fun st => Ok (a, st).

Definition bind {A B} (c : M A) (k : A -> M B) : M B :=
  fun st =>
    match c st with
    | Ok (a, st') => k a st'
    | Raise e => Raise e
    end.

Definition raise {A} (e : Exn) : M A := fun _ => Raise e.

Definition lift {A} (c : Result A) : M A :=
  fun st => match c with Ok a => Ok (a, st) | Raise e => Raise e end.

Declare Scope m_scope.
Delimit Scope m_scope with m.
Notation "x <- c ;; k" := (bind c (fun x => k))
  (at level 61, c at next level, right associativity) : m_scope.
Notation "c ;;; k" := (bind c (fun _ => k))
  (at level 61, right associativity) : m_scope.

(** Attribute reads and the one attribute write. *)
Definition Event_group_id (event : EventRef) : M Z :=
  fun st => Ok (Event.group_id (st event), st).

Definition Event_group (event : EventRef) : M Group.t :=
  fun st =>
    match Event.group (st event) with
    | Some g => Ok (g, st)
    | None => Raise AttributeError
    end.

Definition Event_set_group (event : EventRef) (g : Group.t) : M unit :=
  fun st => Ok (tt, Store_set st event (Event.set_group (st event) g)).

(** Comprehensions and folds whose bodies call into the module. *)
Fixpoint mapM {A B} (f : A -> M B) (l : list A) : M (list B) :=
  match l with
  | [] => ret []
  | x :: l' => (y <- f x ;; ys <- mapM f l' ;; ret (y :: ys))%m
  end.

Fixpoint filterM {A} (f : A -> M bool) (l : list A) : M (list A) :=
  match l with
  | [] => ret []
  | x :: l' =>
      (b <- f x ;; ys <- filterM f l' ;; ret (if b then x :: ys else ys))%m
  end.

Fixpoint foldM {A B} (f : B -> A -> M B) (l : list A) (acc : B) : M B :=
  match l with
  | [] => ret acc
  | x :: l' => (acc' <- f acc x ;; foldM f l' acc')%m
  end.

Fixpoint Result_map {A B} (f : A -> Result B) (l : list A) : Result (list B) :=
  match l with
  | [] => Ok []
  | x :: l' =>
      (y <- f x ;; ys <- Result_map f l' ;; Ok (y :: ys))%result
  end.

Fixpoint Result_fold {A B} (f : B -> A -> Result B) (l : list A) (acc : B)
  : Result B :=
  match l with
  | [] => Ok acc
  | x :: l' => (acc' <- f acc x ;; Result_fold f l' acc')%result
  end.

(** ** Dictionaries *)

(** A [dict] keyed by primary-key numbers, as [in_bulk] and the counter
    service return them. *)
Definition dict (V : Type) : Type := list (Z * V).

Definition dict_keys {V} (d : dict V) : list Z := List.map fst d.

(** [d.get(k)] *)
Fixpoint dict_get {V} (d : dict V) (k : Z) : option V :=
  match d with
  | [] => None
  | (k', v) :: d' => if k' =? k then Some v else dict_get d' k
  end.

(** [d[k].attr = ...]: the object under [k] is updated in place; a missing
    key is a [KeyError]. *)
Fixpoint dict_modify {V} (d : dict V) (k : Z) (f : V -> V) : Result (dict V) :=
  match d with
  | [] => Raise (KeyError k)
  | (k', v) :: d' =>
      if k' =? k then Ok ((k', f v) :: d')
      else (d'' <- dict_modify d' k f ;; Ok ((k', v) :: d''))%result
  end.

(** An [OrderedDict] or [defaultdict] keyed by model instances. *)
Definition odict (K V : Type) : Type := list (K * V).

Section ModelKeyed.
Context {K V : Type} `{Model K}.

(** [d[k] = v]: an equal key keeps its place and its key object. *)
Fixpoint odict_set (d : odict K V) (k : K) (v : V) : odict K V :=
  match d with
  | [] => [(k, v)]
  | (k', v') :: d' =>
      if pk k' =? pk k then (k', v) :: d'
      else (k', v') :: odict_set d' k v
  end.

(** [OrderedDict(items)] *)
Definition OrderedDict (items : list (K * V)) : odict K V :=
  fold_left (fun d kv => odict_set d (fst kv) (snd kv)) items [].

(** [d[k]] on a [defaultdict] followed by an in-place update [f] of the
    value: a missing key is first inserted, at the end, with [default]. *)
Fixpoint defaultdict_update (default : V) (d : odict K V) (k : K)
    (f : V -> V) : odict K V :=
  match d with
  | [] => [(k, f default)]
  | (k', v) :: d' =>
      if pk k' =? pk k then (k', f v) :: d'
      else (k', v) :: defaultdict_update default d' k f
  end.

(** [d.get(k)], used to state properties. *)
Fixpoint odict_get (d : odict K V) (k : K) : option V :=
  match d with
  | [] => None
  | (k', v) :: d' => if pk k' =? pk k then Some v else odict_get d' k
  end.
End ModelKeyed.

(** ** [sorted(items, key=..., reverse=True)] *)

(** Python's sort is stable, and with [reverse=True] elements with equal
    keys still keep their original order.  A stable sort is determined by
    its input, so insertion sort stands for it. *)
Section SortedReverse.
Context {A K : Type} (ltb : K -> K -> bool) (key : A -> K).

Fixpoint insert_reverse (x : A) (l : list A) : list A :=
  match l with
  | [] => [x]
  | y :: l' =>
      if ltb (key x) (key y) then y :: insert_reverse x l'
      else x :: y :: l'
  end.

Definition sorted_reverse (l : list A) : list A :=
  fold_right insert_reverse [] l.
End SortedReverse.

(** Tuple comparison [a < b] for pairs of integers. *)
Definition tuple_ltb (a b : Z * Z) : bool :=
  (fst a <? fst b) || ((fst a =? fst b) && (snd a <? snd b)).

Definition len_ltb (a b : nat) : bool := Nat.ltb a b.

(** [l[0]] and [l[-1]] *)
Definition getitem_first {A} (l : list A) : Result A :=
  match l with
  | [] => Raise IndexError
  | x :: _ => Ok x
  end.

Fixpoint getitem_last {A} (l : list A) : Result A :=
  match l with
  | [] => Raise IndexError
  | [x] => Ok x
  | _ :: l' => getitem_last l'
  end.

(** [[_f for _f in l if _f]] on a list of model instances and [None]s. *)
Fixpoint somes {A} (l : list (option A)) : list A :=
  match l with
  | [] => []
  | Some x :: l' => x :: somes l'
  | None :: l' => somes l'
  end.

(** [bool(x)] for [x] a [Record] or [None]: a named tuple of three fields is
    never empty, so only [None] is falsy. *)
Definition bool_ {A} (x : option A) : bool :=
  match x with
  | Some _ => true
  | None => false
  end.

(** ** The services the module calls *)

Inductive TSDBModel : Type :=
| tsdb_models_group
| tsdb_models_users_affected_by_group.

(** The object store, the counter service and the two methods of imported
    classes that the module calls; none of them lives in this module. *)
Class Externals : Type := {
  DateTime : Type;
  (** [sentry.utils.dates.to_datetime], behind [Record.datetime] *)
  to_datetime : Z -> DateTime;
  (** [Group.objects.in_bulk(ids)] *)
  Group_objects_in_bulk : list Z -> dict Group.t;
  (** [Rule.objects.in_bulk(ids)] *)
  Rule_objects_in_bulk : list Z -> dict Rule.t;
  (** [tsdb.get_sums(model, keys, start, end)] *)
  tsdb_get_sums : TSDBModel -> list Z -> DateTime -> DateTime -> dict Z;
  (** [tsdb.get_distinct_counts_totals(model, keys, start, end)] *)
  tsdb_get_distinct_counts_totals :
    TSDBModel -> list Z -> DateTime -> DateTime -> dict Z;
  (** [group.get_status()] *)
  Group_get_status : Group.t -> GroupStatus
}.

(** The dictionary [fetch_state] returns and [attach_state] takes. *)
Module State.
Record t : Type := {
  project : Project.t;
  groups : dict Group.t;
  rules : dict Rule.t;
  event_counts : dict Z;
  user_counts : dict Z
}.
End State.

(** The dictionary [attach_state] returns. *)
Module Attached.
Record t : Type := {
  project : Project.t;
  groups : dict Group.t;
  rules : dict Rule.t
}.
End Attached.

(** ** State attacher *)

(** The four loops of [attach_state], in order.  The [assert] statements are
    executed, as they are unless the interpreter runs with [-O].  The loops
    change the group and rule objects in place; the dictionaries that come
    back hold the changed objects under their keys. *)
Definition attach_state (project : Project.t) (groups : dict Group.t)
    (rules : dict Rule.t) (event_counts user_counts : dict Z)
  : Result Attached.t :=
  (groups <- Result_map (fun kv =>
       let '(id, group) := kv in
       if Group.project_id group =? Project.id project
       then Ok (id, Group.set_user_count 0
                      (Group.set_event_count 0
                         (Group.set_project group project)))
       else Raise (AssertionError "Group must belong to Project")) groups ;;
   rules <- Result_map (fun kv =>
       let '(id, rule) := kv in
       if Rule.project_id rule =? Project.id project
       then Ok (id, Rule.set_project rule project)
       else Raise (AssertionError "Rule must belong to Project")) rules ;;
   groups <- Result_fold (fun groups kv =>
       let '(id, event_count) := kv in
       dict_modify groups id (Group.set_event_count event_count))
     event_counts groups ;;
   groups <- Result_fold (fun groups kv =>
       let '(id, user_count) := kv in
       dict_modify groups id (Group.set_user_count user_count))
     user_counts groups ;;
   Ok {| Attached.project := project;
         Attached.groups := groups;
         Attached.rules := rules |})%result.

(** ** Pipeline engine *)

Module Pipeline.

(** The list [self.operations]: [new] is the empty list of [__init__],
    [append] is [self.operations.append(operation)].  The element type of
    the sequence changes from one operation to the next. *)
Inductive t : Type -> Type -> Type :=
| new : forall A, t A A
| append : forall A B C, t A B -> (B -> M C) -> t A C.

Arguments append {A B C} _ _.

(** [__call__]: the operations applied in the order they were added. *)
Fixpoint call {A B} (self : t A B) : A -> M B :=
  match self in t A B return A -> M B with
  | new _ => fun sequence => ret sequence
  | append self' operation =>
      fun sequence => (x <- call self' sequence ;; operation x)%m
  end.

(** The stages log through [logger.debug], whose arguments take the length
    of the sequence a stage is given and, but for [apply] and [map], of its
    result.  Logging is not modelled: the stages are for sequences and
    results that have a length, such as the lists and dictionaries of
    [build_digest], for which taking the length does nothing. *)
Definition apply {A B C} (self : t A B) (function : B -> M C) : t A C :=
  append self (fun sequence => function sequence).

Definition filter {A B} (self : t A (list B)) (function : B -> M bool)
  : t A (list B) :=
  append self (fun sequence => filterM function sequence).

Definition map {A B C} (self : t A (list B)) (function : B -> M C)
  : t A (list C) :=
  append self (fun sequence => mapM function sequence).

Definition reduce {A B C} (self : t A (list B)) (function : C -> B -> M C)
    (initializer : list B -> M C) : t A C :=
  append self (fun sequence =>
    (initial <- initializer sequence ;; foldM function sequence initial)%m).

End Pipeline.

(** ** Digest builder *)

(** What the pipeline of [build_digest] returns: rule, then group, then the
    records; a record is the [Some] of the rewritten record. *)
Definition Digest : Type :=
  odict Rule.t (odict Group.t (list (option (Record_.t Rule.t)))).

(** [rewrite_record]: the event's group is looked up, written on the event
    and a new record returned with the rules its ids resolve to; without a
    group the function returns [None] and writes nothing. *)
Definition rewrite_record (record : Record_.t Z) (project : Project.t)
    (groups : dict Group.t) (rules : dict Rule.t)
  : M (option (Record_.t Rule.t)) :=
  let event := Notification.event (Record_.value record) in
  (group_id <- Event_group_id event ;;
   match dict_get groups group_id with
   | Some group =>
       Event_set_group event group ;;;
       ret (Some {| Record_.key := Record_.key record;
                    Record_.value :=
                      {| Notification.event := event;
                         Notification.rules :=
                           somes (List.map (dict_get rules)
                                    (Notification.rules (Record_.value record))) |};
                    Record_.timestamp := Record_.timestamp record |})
   | None => ret None
   end)%m.

(** [group_records]: [groups[rule][group].append(record)] for every rule of
    the record, [groups] being a [defaultdict] of [defaultdict]s of lists. *)
Definition group_records (groups : Digest) (record : option (Record_.t Rule.t))
  : M Digest :=
  match record with
  | None => raise AttributeError
  | Some r =>
      (group <- Event_group (Notification.event (Record_.value r)) ;;
       let rules := Notification.rules (Record_.value r) in
       ret (fold_left (fun groups rule =>
              defaultdict_update [] groups rule (fun by_group =>
                defaultdict_update [] by_group group (fun records =>
                  records ++ [record])))
            rules groups))%m
  end.

(** [sort_group_contents]: every value of [rules] is replaced, while [rules]
    is iterated, by the [OrderedDict] of its items sorted by the pair of
    counts of the group, greatest first. *)
Definition sort_group_contents (rules : Digest) : Digest :=
  fold_left (fun rules kv =>
      let '(key, groups) := kv in
      odict_set rules key
        (OrderedDict
           (sorted_reverse tuple_ltb
              (fun x => (Group.event_count (fst x), Group.user_count (fst x)))
              groups)))
    rules rules.

(** [sort_rule_groups]: the items sorted by the number of groups, greatest
    first. *)
Definition sort_rule_groups (rules : Digest) : Digest :=
  OrderedDict
    (sorted_reverse len_ltb (fun x => List.length (snd x)) rules).

Section Digests.
Context `{Externals}.

(** [Record.datetime], a property of the imported [Record] class: the
    timestamp as a date-time. *)
Definition Record_datetime {A} (record : Record_.t A) : DateTime :=
  to_datetime (Record_.timestamp record).

(** ** State fetcher *)

(** [fetch_state]: [records[-1]] and [records[0]] raise [IndexError] on an
    empty batch. *)
Definition fetch_state (project : Project.t) (records : list (Record_.t Z))
  : M State.t :=
  (start <- lift (last <- getitem_last records ;;
                  Ok (Record_datetime last))%result ;;
   end_ <- lift (first <- getitem_first records ;;
                 Ok (Record_datetime first))%result ;;
   group_ids <- mapM (fun record =>
       Event_group_id (Notification.event (Record_.value record))) records ;;
   let groups := Group_objects_in_bulk group_ids in
   ret {| State.project := project;
          State.groups := groups;
          State.rules :=
            Rule_objects_in_bulk
              (List.concat
                 (List.map (fun record =>
                    Notification.rules (Record_.value record)) records));
          State.event_counts :=
            tsdb_get_sums tsdb_models_group (dict_keys groups) start end_;
          State.user_counts :=
            tsdb_get_distinct_counts_totals
              tsdb_models_users_affected_by_group (dict_keys groups)
              start end_ |})%m.

(** The local function [check_group_state] of [build_digest]. *)
Definition check_group_state (record : option (Record_.t Rule.t)) : M bool :=
  match record with
  | None => raise AttributeError
  | Some r =>
      (group <- Event_group (Notification.event (Record_.value r)) ;;
       ret (GroupStatus_eqb (Group_get_status group) UNRESOLVED))%m
  end.

(** The pipeline [build_digest] assembles from the attached state. *)
Definition digest_pipeline (state : Attached.t)
  : Pipeline.t (list (Record_.t Z)) Digest :=
  Pipeline.apply
    (Pipeline.apply
       (Pipeline.reduce
          (Pipeline.filter
             (Pipeline.filter
                (Pipeline.map (Pipeline.new _)
                   (fun record =>
                      rewrite_record record (Attached.project state)
                        (Attached.groups state) (Attached.rules state)))
                (fun record => ret (bool_ record)))
             check_group_state)
          group_records
          (fun sequence => ret []))
       (fun rules => ret (sort_group_contents rules)))
    (fun rules => ret (sort_rule_groups rules)).

(** [build_digest]: [None] for an empty batch; otherwise the state is
    fetched unless given, attached, and the pipeline run on the records. *)
Definition build_digest (project : Project.t) (records : list (Record_.t Z))
    (state : option State.t) : M (option Digest) :=
  match records with
  | [] => ret None
  | _ :: _ =>
      (state <- match state with
                | None => fetch_state project records
                | Some state => ret state
                end ;;
       state <- lift (attach_state (State.project state) (State.groups state)
                        (State.rules state) (State.event_counts state)
                        (State.user_counts state)) ;;
       digest <- Pipeline.call (digest_pipeline state) records ;;
       ret (Some digest))%m
  end.

End Digests.

(** ** The generic key, the key test and the record constructor *)

(** A plugin, as far as the module looks at one. *)
Module Plugin.
Record t : Type := { slug : string }.
End Plugin.

(** [s.count(sep)] for a one-character separator. *)
Fixpoint count (sep : ascii) (s : string) : nat :=
  match s with
  | EmptyString => O
  | String c s' => if Ascii.eqb c sep then S (count sep s') else count sep s'
  end.

(** [s.split(sep)]: every separator splits; a string has no more separators
    than characters. *)
Definition split_unbounded (sep : ascii) (s : string) : list string :=
  Py.split sep s (String.length s).

(** [enumerate(l)], counting from [n]. *)
Fixpoint enumerate_from {A} (n : nat) (l : list A) : list (nat * A) :=
  match l with
  | [] => []
  | x :: l' => (n, x) :: enumerate_from (S n) l'
  end.

Definition is_targeted_action_key (key : string) : bool :=
  Nat.eqb
    (List.length
       (List.map snd
          (List.filter
             (fun it =>
                Nat.eqb (fst it) 0
                && String.eqb (snd it) TARGETED_MAIL_ACTION_SYMBOL)
             (enumerate_from 0 (split_unbounded ":"%char key)))))
    1.

Definition unsplit_key (plugin : Plugin.t) (project : Project.t) : string :=
  (Plugin.slug plugin ++ ":p:" ++ Py.str (Project.id project))%string.

Section GenericKey.

(** [plugins.get(slug)] of the plugin registry. *)
Variable plugins_get : string -> Result Plugin.t.

(** [Project.objects.get(pk=...)], as for the targeted key. *)
Variable Project_objects_get : string -> Result Project.t.

Definition split_key (key : string) : Result (Plugin.t * Project.t) :=
  match Py.split ":"%char key 2 with
  | [plugin_slug; _; project_id] =>
      (plugin <- plugins_get plugin_slug ;;
       project <- Project_objects_get project_id ;;
       Ok (plugin, project))%result
  | _ => Raise ValueError
  end.

End GenericKey.

Section RecordConstructor.

(** [to_timestamp(event.datetime)] for the event at a reference; the module
    never writes the attribute, and the conversion lives in
    [sentry.utils.dates]. *)
Variable Event_timestamp : EventRef -> Z.

(** [event_to_record]; the warning it logs for an empty rule list changes
    nothing. *)
Definition event_to_record (event : EventRef) (rules : list Rule.t)
  : M (Record_.t Z) :=
  fun st =>
    Ok ({| Record_.key := Event.event_id (st event);
           Record_.value :=
             {| Notification.event := event;
                Notification.rules := List.map Rule.id rules |};
           Record_.timestamp := Event_timestamp event |}, st).

End RecordConstructor.

(** ** Vocabulary of the properties *)

(** The record [rewrite_record] returns for a record whose group resolves. *)
Definition rewritten (rules : dict Rule.t) (record : Record_.t Z)
  : Record_.t Rule.t :=
  {| Record_.key := Record_.key record;
     Record_.value :=
       {| Notification.event := Notification.event (Record_.value record);
          Notification.rules :=
            somes (List.map (dict_get rules)
                     (Notification.rules (Record_.value record))) |};
     Record_.timestamp := Record_.timestamp record |}.

(** [groups.get(event.group_id)] for the event of a record. *)
Definition resolved_group (groups : dict Group.t) (st : Store)
    (record : Record_.t Z) : option Group.t :=
  dict_get groups
    (Event.group_id (st (Notification.event (Record_.value record)))).

(** The store once every record of a batch went through [rewrite_record]. *)
Definition attach_events (groups : dict Group.t) (records : list (Record_.t Z))
    (st : Store) : Store :=
  fold_left (fun st record =>
      let event := Notification.event (Record_.value record) in
      match resolved_group groups st record with
      | Some group => Store_set st event (Event.set_group (st event) group)
      | None => st
      end)
    records st.

(** The loop of [group_records] for a record and the group of its event. *)
Definition insert_record (groups : Digest) (group : Group.t)
    (record : Record_.t Rule.t) : Digest :=
  fold_left (fun groups rule =>
      defaultdict_update [] groups rule (fun by_group =>
        defaultdict_update [] by_group group (fun records =>
          records ++ [Some record])))
    (Notification.rules (Record_.value record)) groups.

(** The groups [group_records] builds from records paired with their groups. *)
Definition grouped (survivors : list (Group.t * Record_.t Rule.t)) : Digest :=
  fold_left (fun groups gr => insert_record groups (fst gr) (snd gr))
    survivors [].

(** The records of a batch that pass both filters, rewritten, in the order of
    the batch, each with the group of its event. *)
Definition survivors `{Externals} (state : Attached.t) (st : Store)
    (records : list (Record_.t Z)) : list (Group.t * Record_.t Rule.t) :=
  flat_map (fun record =>
      match resolved_group (Attached.groups state) st record with
      | Some group =>
          if GroupStatus_eqb (Group_get_status group) UNRESOLVED
          then [(group, rewritten (Attached.rules state) record)]
          else []
      | None => []
      end)
    records.

(** The list under a rule and a group of a digest, empty when there is
    none. *)
Definition leaf (digest : Digest) (rule : Rule.t) (group : Group.t)
  : list (option (Record_.t Rule.t)) :=
  match odict_get digest rule with
  | Some by_group =>
      match odict_get by_group group with
      | Some records => records
      | None => []
      end
  | None => []
  end.

(** The primary keys of the keys of a mapping, in order. *)
Definition pks {K V} `{Model K} (d : odict K V) : list Z :=
  List.map (fun kv => pk (fst kv)) d.

(** No element is followed by one with a greater key. *)
Definition descending {A K} (ltb : K -> K -> bool) (key : A -> K)
  : list A -> Prop :=
  StronglySorted (fun a b => ltb (key a) (key b) = false).

(** The keys of a digest are distinct at both levels, as the keys of a
    dictionary are. *)
Definition well_keyed (d : Digest) : Prop :=
  NoDup (pks d) /\ Forall (fun kv => NoDup (pks (snd kv))) d.

(** The two sorts on a digest with distinct keys. *)
Definition sorted_digest (d : Digest) : Digest :=
  sorted_reverse len_ltb (fun x => List.length (snd x))
    (List.map (fun kv =>
       (fst kv,
        sorted_reverse tuple_ltb
          (fun x => (Group.event_count (fst x), Group.user_count (fst x)))
          (snd kv))) d).

(** No mapping and no list of a digest is empty, every group that is a key
    satisfies [Q] and every listed record satisfies [R]. *)
Definition digest_Forall (Q : Group.t -> Prop)
    (R : option (Record_.t Rule.t) -> Prop) (d : Digest) : Prop :=
  forall rule by_group,
    In (rule, by_group) d ->
    by_group <> []
    /\ forall group records,
         In (group, records) by_group ->
         records <> [] /\ Q group /\ forall record, In record records -> R record.

(** What a surviving record adds to the list under a rule and a group: one
    copy for every entry of its rule list that is that rule, when its group
    is that group. *)
Definition appended (rule : Rule.t) (group : Group.t)
    (gr : Group.t * Record_.t Rule.t) : list (option (Record_.t Rule.t)) :=
  if pk (fst gr) =? pk group
  then repeat (Some (snd gr))
         (List.length
            (List.filter (fun rule' => pk rule' =? pk rule)
               (Notification.rules (Record_.value (snd gr)))))
  else [].

(** A surviving record belongs under a rule and a group. *)
Definition listed_under (rule : Rule.t) (group : Group.t)
    (gr : Group.t * Record_.t Rule.t) : bool :=
  (pk (fst gr) =? pk group)
  && existsb (fun rule' => pk rule' =? pk rule)
       (Notification.rules (Record_.value (snd gr))).

(** The lists of a digest, each with the rule and the group it is under. *)
Definition leaves (d : Digest)
  : list (Rule.t * Group.t * list (option (Record_.t Rule.t))) :=
  flat_map (fun kv => List.map (fun gl => (fst kv, fst gl, snd gl)) (snd kv)) d.


(** [d.get(k, default)] on a dictionary of counts. *)
Definition dict_get_default (d : dict Z) (k : Z) (default : Z) : Z :=
  match dict_get d k with
  | Some v => v
  | None => default
  end.

(** ** A worked batch *)

(** One project with four groups and two rules, and a batch of six records
    in reverse chronological order: three land under rule 1, one of them
    under rule 2 as well; one names a rule that no longer exists; one
    belongs to a resolved group; one to a group that is gone; one has no
    rule. *)
Module Sample.

Definition project : Project.t := {| Project.id := 1; Project.slug := "web" |}.

Definition other_project : Project.t :=
  {| Project.id := 2; Project.slug := "api" |}.

Definition Project_objects_get (pk : string) : Result Project.t :=
  if String.eqb pk "1" then Ok project else Raise DoesNotExist.

Definition group (id project_id : Z) (status : GroupStatus) : Group.t :=
  {| Group.id := id; Group.project_id := project_id; Group.status := status;
     Group.project := None; Group.event_count := 0; Group.user_count := 0 |}.

Definition rule (id project_id : Z) : Rule.t :=
  {| Rule.id := id; Rule.project_id := project_id; Rule.project := None |}.

Definition groups : dict Group.t :=
  [(10, group 10 1 UNRESOLVED); (11, group 11 1 UNRESOLVED);
   (12, group 12 1 UNRESOLVED); (13, group 13 1 RESOLVED)].

Definition rules : dict Rule.t := [(1, rule 1 1); (2, rule 2 1)].

Definition event_counts : dict Z := [(10, 10); (11, 5); (12, 5)].
Definition user_counts : dict Z := [(10, 2); (11, 9); (12, 1)].

Definition in_bulk {V} (table : dict V) (ids : list Z) : dict V :=
  List.filter (fun kv => existsb (Z.eqb (fst kv)) ids) table.

#[export] Instance externals : Externals := {|
  DateTime := Z;
  to_datetime := fun timestamp => timestamp;
  Group_objects_in_bulk := in_bulk groups;
  Rule_objects_in_bulk := in_bulk rules;
  tsdb_get_sums := fun _ keys _ _ => in_bulk event_counts keys;
  tsdb_get_distinct_counts_totals := fun _ keys _ _ => in_bulk user_counts keys;
  Group_get_status := Group.status
|}.

(** Event [n] belongs to group [10 + n]; no event has its group attached. *)
Definition store : Store :=
  fun event =>
    {| Event.event_id := "event"; Event.group_id := 10 + Z.of_nat event;
       Event.group := None |}.

Definition record (key : string) (event : EventRef) (rules : list Z)
    (timestamp : Z) : Record_.t Z :=
  {| Record_.key := key;
     Record_.value :=
       {| Notification.event := event; Notification.rules := rules |};
     Record_.timestamp := timestamp |}.

Definition records : list (Record_.t Z) :=
  [record "a" 2%nat [1] 100; record "b" 1%nat [1; 2] 90;
   record "c" 0%nat [1; 7] 80; record "d" 3%nat [1] 70;
   record "e" 4%nat [2] 60; record "f" 0%nat [] 50].

Definition state : State.t :=
  {| State.project := project; State.groups := groups; State.rules := rules;
     State.event_counts := event_counts; State.user_counts := user_counts |}.

(** What [attach_state] makes of [state]. *)
Definition attached : Attached.t :=
  Eval vm_compute in
    match attach_state project groups rules event_counts user_counts with
    | Ok attached => attached
    | Raise _ =>
        {| Attached.project := project; Attached.groups := [];
           Attached.rules := [] |}
    end.

(** The digest of the batch. *)
Definition digest : Digest :=
  Eval vm_compute in
    match Pipeline.call (digest_pipeline attached) records store with
    | Ok (digest, _) => digest
    | Raise _ => []
    end.

(** The store the pipeline leaves. *)
Definition store' : Store :=
  attach_events (Attached.groups attached) records store.

(** The second of the surviving records, record "b", with its group. *)
Definition survivor_b : Group.t * Record_.t Rule.t :=
  Eval vm_compute in
    nth 1 (survivors attached store records)
      (group 0 0 IGNORED, rewritten [] (record "" 0%nat [] 0)).

(** A record that names rule 1 twice. *)
Definition twice : Record_.t Z := record "g" 0%nat [1; 1] 40.

(** A plugin, and a registry that knows a plugin under every slug. *)
Definition plugin : Plugin.t := {| Plugin.slug := "mail" |}.

Definition plugins_get (slug : string) : Result Plugin.t :=
  Ok {| Plugin.slug := slug |}.

(** Event [n] was seen at time [100 - 10 n]. *)
Definition Event_timestamp (event : EventRef) : Z := 100 - 10 * Z.of_nat event.

(** The groups of the batch as [group_records] leaves them, before the two
    sorts. *)
Definition unsorted : Digest :=
  Eval vm_compute in grouped (survivors attached store records).

(** Services that hold no object and no count, and read the status of a
    group as [externals] does. *)
Definition bare_externals : Externals := {|
  DateTime := Z;
  to_datetime := fun timestamp => timestamp;
  Group_objects_in_bulk := fun _ => [];
  Rule_objects_in_bulk := fun _ => [];
  tsdb_get_sums := fun _ _ _ _ => [];
  tsdb_get_distinct_counts_totals := fun _ _ _ _ => [];
  Group_get_status := Group.status
|}.

End Sample.

(** * Properties *)

(** ** Key codec *)

Lemma split_maxsplit_0 (sep : ascii) (s : string) : Py.split sep s 0 = [s].
Proof. destruct s; reflexivity. Qed.

Lemma split_token (sep : ascii) (token rest : string) (n : nat) :
  Py.contains sep token = false ->
  Py.split sep (token ++ String sep rest) (S n) = token :: Py.split sep rest n.
Proof.
  induction token as [|c token IH]; simpl; intros Hc.
  - now rewrite Ascii.eqb_refl.
  - apply orb_false_elim in Hc as [Hc Htoken].
    rewrite Hc, (IH Htoken). reflexivity.
Qed.

Lemma digits_no_colon (d : uint) :
  Py.contains ":" (NilEmpty.string_of_uint d) = false.
Proof. induction d; simpl; auto. Qed.

Lemma uint_no_colon (d : uint) :
  Py.contains ":" (NilZero.string_of_uint d) = false.
Proof. destruct d; [reflexivity | exact (digits_no_colon _) ..]. Qed.

Lemma str_no_colon (n : Z) : Py.contains ":" (Py.str n) = false.
Proof.
  destruct n as [|p|p]; unfold Py.str; simpl;
    [reflexivity | apply uint_no_colon ..].
Qed.

Lemma int_str (n : Z) : Py.int (Py.str n) = Ok n.
Proof.
  unfold Py.int, Py.str.
  rewrite NilZero.isi.
  - now rewrite DecimalZ.of_to.
  - destruct n as [|p|p]; simpl; try discriminate.
    intros [= E]. now apply Unsigned.to_uint_nonnil in E.
  - destruct n as [|p|p]; simpl; try discriminate.
    intros [= E]. now apply Unsigned.to_uint_nonnil in E.
Qed.

Lemma split_targeted_key (project_id target_type target_id : string) :
  Py.contains ":" project_id = false ->
  Py.contains ":" target_type = false ->
  Py.split ":"
    (TARGETED_MAIL_ACTION_SYMBOL ++ ":p:" ++ project_id ++ ":" ++ target_type
       ++ ":" ++ target_id) 4
  = [TARGETED_MAIL_ACTION_SYMBOL; "p"%string; project_id; target_type;
     target_id].
Proof.
  intros Hp Ht.
  change (":p:" ++ ?x)%string with (String ":" ("p" ++ String ":" x)).
  change (":" ++ target_type ++ ?x)%string with (String ":" (target_type ++ x)).
  change (":" ++ target_id)%string with (String ":" target_id).
  rewrite split_token; [| reflexivity].
  rewrite split_token; [| reflexivity].
  rewrite split_token; [| assumption].
  rewrite split_token; [| assumption].
  now rewrite split_maxsplit_0.
Qed.

(** C6, as amended: for a project that the object store returns under the
    text of its id and a target type without a colon, decoding the encoded
    targeted key gives the mail adapter, that project, that target type and
    the target id, or [-1] when the target id was [None]. *)
Theorem targeted_key_round_trip
    (Project_objects_get : string -> Result Project.t)
    (project : Project.t) (target_type : string) (target_id : option Z) :
  Project_objects_get (Py.str (Project.id project)) = Ok project ->
  Py.contains ":" target_type = false ->
  split_key_for_targeted_action Project_objects_get
    (unsplit_key_for_targeted_action project target_type target_id)
  = Ok (MailAdapter_new, project, target_type,
        match target_id with Some n => n | None => -1 end).
Proof.
  intros Hget Htype.
  unfold split_key_for_targeted_action, unsplit_key_for_targeted_action.
  rewrite split_targeted_key by (trivial; apply str_no_colon).
  rewrite Hget. simpl. now rewrite int_str.
Qed.

(** ** State attacher *)

Lemma Result_map_guard {A B} (p : A -> bool) (g : A -> B) (e : Exn)
    (l : list (Z * A)) :
  Result_map (fun kv => let '(id, x) := kv in
                        if p x then Ok (id, g x) else Raise e) l
  = if forallb (fun kv => p (snd kv)) l
    then Ok (List.map (fun kv => (fst kv, g (snd kv))) l)
    else Raise e.
Proof.
  induction l as [|[id x] l IH]; simpl; trivial.
  destruct (p x); simpl; trivial.
  rewrite IH. now destruct (forallb _ l).
Qed.

Lemma dict_modify_keys {V} (f : V -> V) (k : Z) (d d' : dict V) :
  dict_modify d k f = Ok d' -> dict_keys d' = dict_keys d.
Proof.
  revert d'. induction d as [|[k' v] d IH]; simpl; intros d' E.
  - discriminate.
  - destruct (k' =? k).
    + now injection E as <-.
    + destruct (dict_modify d k f) as [d1|]; simpl in E; [|discriminate].
      injection E as <-. simpl. now rewrite (IH d1).
Qed.

Lemma dict_modify_missing {V} (f : V -> V) (k : Z) (d : dict V) :
  ~ In k (dict_keys d) -> dict_modify d k f = Raise (KeyError k).
Proof.
  induction d as [|[k' v] d IH]; simpl; intros Hk; trivial.
  destruct (Z.eqb_spec k' k); [tauto|].
  rewrite IH; tauto.
Qed.

Lemma dict_modify_present {V} (f : V -> V) (k : Z) (d : dict V) :
  In k (dict_keys d) -> exists d', dict_modify d k f = Ok d'.
Proof.
  induction d as [|[k' v] d IH]; simpl; intros Hk; [tauto|].
  destruct (Z.eqb_spec k' k); [eauto|].
  destruct IH as [d' ->]; [tauto|]. simpl. eauto.
Qed.

Lemma dict_modify_Forall {V} (P : Z -> V -> Prop) (f : V -> V) (k : Z)
    (d d' : dict V) :
  (forall v, P k v -> P k (f v)) ->
  dict_modify d k f = Ok d' ->
  Forall (fun kv => P (fst kv) (snd kv)) d ->
  Forall (fun kv => P (fst kv) (snd kv)) d'.
Proof.
  intros Hf. revert d'.
  induction d as [|[k' v] d IH]; simpl; intros d' E Hd; [discriminate|].
  inversion_clear Hd as [|? ? Hv Hd']. simpl in Hv.
  destruct (k' =? k) eqn:Ek.
  - apply Z.eqb_eq in Ek as ->. injection E as <-. constructor; simpl; auto.
  - destruct (dict_modify d k f) as [d1|]; simpl in E; [|discriminate].
    injection E as <-. constructor; simpl; auto.
Qed.

Section OverlayCounts.
Context {V : Type} (f : Z -> V -> V).

(** The loops [for id, count in counts: groups[id].attr = count]. *)
Let overlay (counts : dict Z) (d : dict V) : Result (dict V) :=
  Result_fold (fun d kv => let '(id, count) := kv in dict_modify d id (f count))
    counts d.

Lemma overlay_Forall (P : Z -> V -> Prop) (counts : dict Z) :
  (forall id count v, In (id, count) counts -> P id v -> P id (f count v)) ->
  forall d d',
    overlay counts d = Ok d' ->
    Forall (fun kv => P (fst kv) (snd kv)) d ->
    Forall (fun kv => P (fst kv) (snd kv)) d'.
Proof.
  unfold overlay.
  induction counts as [|[id count] counts IH]; simpl; intros Hf d d' E Hd.
  - now injection E as <-.
  - destruct (dict_modify d id (f count)) as [d1|] eqn:E1; simpl in E;
      [|discriminate].
    apply (IH (fun id' c v Hin => Hf id' c v (or_intror Hin)) d1 d' E).
    apply (dict_modify_Forall P (f count) id d d1); auto.
Qed.

Lemma overlay_result (counts : dict Z) (d : dict V) :
  (exists d', overlay counts d = Ok d' /\ dict_keys d' = dict_keys d /\
              forall id, In id (dict_keys counts) -> In id (dict_keys d))
  \/ (exists id, overlay counts d = Raise (KeyError id) /\
                 In id (dict_keys counts) /\ ~ In id (dict_keys d)).
Proof.
  unfold overlay. revert d.
  induction counts as [|[id count] counts IH]; simpl; intros d.
  - left. exists d. tauto.
  - destruct (in_dec Z.eq_dec id (dict_keys d)) as [Hin|Hout].
    + destruct (dict_modify_present (f count) id d Hin) as [d1 E1].
      rewrite E1. simpl.
      pose proof (dict_modify_keys _ _ _ _ E1) as Hk.
      destruct (IH d1) as [(d' & E & Hk' & Hall)|(id' & E & Hin' & Hout')].
      * left. exists d'. rewrite E, Hk', Hk. repeat split; trivial.
        intros id' [<-|H']; trivial. rewrite <- Hk. auto.
      * right. exists id'. rewrite E, <- Hk. auto.
    + right. exists id. rewrite dict_modify_missing by trivial. auto.
Qed.
End OverlayCounts.

Lemma dict_get_None_keys {V} (d : dict V) (k : Z) :
  ~ In k (dict_keys d) -> dict_get d k = None.
Proof.
  induction d as [|[k' v] d IH]; simpl; intros Hout; trivial.
  destruct (Z.eqb_spec k' k); [tauto|]. apply IH. tauto.
Qed.

Lemma dict_modify_map {V} (f : V -> V) (k : Z) (d d' : dict V) :
  NoDup (dict_keys d) ->
  dict_modify d k f = Ok d' ->
  d' = List.map (fun kv => (fst kv, if fst kv =? k then f (snd kv) else snd kv))
         d.
Proof.
  revert d'. induction d as [|[k' v] d IH]; simpl; intros d' Hnd E;
    [discriminate|].
  inversion_clear Hnd as [|? ? Hout Hnd'].
  destruct (Z.eqb_spec k' k) as [->|NE].
  - injection E as <-. f_equal.
    rewrite <- (List.map_id d) at 1. apply List.map_ext_in.
    intros [k' v'] Hin. simpl.
    destruct (Z.eqb_spec k' k) as [->|]; trivial.
    exfalso. apply Hout. exact (in_map fst _ _ Hin).
  - destruct (dict_modify d k f) as [d1|]; simpl in E; [|discriminate].
    injection E as <-. f_equal. now apply IH.
Qed.

Section OverlayExact.
Context {V : Type} (f : Z -> V -> V).

(** With distinct keys on both sides, the loop gives every object the
    count filed under its key and leaves the others alone. *)
Lemma overlay_map (counts : dict Z) :
  NoDup (dict_keys counts) ->
  forall d d',
    NoDup (dict_keys d) ->
    Result_fold (fun d kv => let '(id, count) := kv in dict_modify d id (f count))
      counts d = Ok d' ->
    d' = List.map (fun kv =>
           (fst kv,
            match dict_get counts (fst kv) with
            | Some count => f count (snd kv)
            | None => snd kv
            end)) d.
Proof.
  induction counts as [|[id count] counts IH]; simpl; intros Hcounts d d' Hd E.
  - injection E as <-. symmetry. rewrite <- (List.map_id d) at 2.
    apply List.map_ext. now intros [k v].
  - inversion_clear Hcounts as [|? ? Hout Hcounts'].
    destruct (dict_modify d id (f count)) as [d1|] eqn:E1; simpl in E;
      [|discriminate].
    pose proof (dict_modify_keys _ _ _ _ E1) as Hkeys.
    apply dict_modify_map in E1; trivial.
    rewrite (IH Hcounts' d1 d') by (trivial; now rewrite Hkeys).
    rewrite E1, List.map_map. apply List.map_ext. intros [k v]. simpl.
    rewrite (Z.eqb_sym id k).
    destruct (Z.eqb_spec k id) as [->|]; trivial.
    now rewrite dict_get_None_keys.
Qed.
End OverlayExact.

Lemma attach_state_eq (project : Project.t) (groups : dict Group.t)
    (rules : dict Rule.t) (event_counts user_counts : dict Z) :
  attach_state project groups rules event_counts user_counts
  = if forallb (fun kv => Group.project_id (snd kv) =? Project.id project) groups
    then
      if forallb (fun kv => Rule.project_id (snd kv) =? Project.id project) rules
      then
        (groups <- Result_fold (fun groups kv =>
             let '(id, event_count) := kv in
             dict_modify groups id (Group.set_event_count event_count))
           event_counts
           (List.map (fun kv =>
              (fst kv, Group.set_user_count 0
                         (Group.set_event_count 0
                            (Group.set_project (snd kv) project)))) groups) ;;
         groups <- Result_fold (fun groups kv =>
             let '(id, user_count) := kv in
             dict_modify groups id (Group.set_user_count user_count))
           user_counts groups ;;
         Ok {| Attached.project := project;
               Attached.groups := groups;
               Attached.rules :=
                 List.map (fun kv => (fst kv, Rule.set_project (snd kv) project))
                   rules |})%result
      else Raise (AssertionError "Rule must belong to Project")
    else Raise (AssertionError "Group must belong to Project").
Proof.
  unfold attach_state.
  rewrite (Result_map_guard
             (fun group => Group.project_id group =? Project.id project)
             (fun group => Group.set_user_count 0
                             (Group.set_event_count 0
                                (Group.set_project group project)))).
  destruct (forallb _ groups); simpl; trivial.
  rewrite (Result_map_guard
             (fun rule => Rule.project_id rule =? Project.id project)
             (fun rule => Rule.set_project rule project)).
  destruct (forallb _ rules); reflexivity.
Qed.

Lemma owned_forallb {V} (project_id : V -> Z) (n : Z) (d : dict V) :
  forallb (fun kv => project_id (snd kv) =? n) d = true
  <-> forall id v, In (id, v) d -> project_id v = n.
Proof.
  rewrite forallb_forall. split.
  - intros Hall id v Hin. apply Z.eqb_eq. exact (Hall (id, v) Hin).
  - intros Hall [id v] Hin. apply Z.eqb_eq. simpl. eauto.
Qed.

Lemma dict_keys_map {V W} (g : V -> W) (d : dict V) :
  dict_keys (List.map (fun kv => (fst kv, g (snd kv))) d) = dict_keys d.
Proof.
  unfold dict_keys. rewrite List.map_map. now apply List.map_ext.
Qed.

Lemma attach_state_cases (project : Project.t) (groups : dict Group.t)
    (rules : dict Rule.t) (event_counts user_counts : dict Z) :
  (forall id group,
     In (id, group) groups -> Group.project_id group = Project.id project) ->
  (forall id rule,
     In (id, rule) rules -> Rule.project_id rule = Project.id project) ->
  (exists state,
     attach_state project groups rules event_counts user_counts = Ok state
     /\ dict_keys (Attached.groups state) = dict_keys groups
     /\ forall id, In id (dict_keys event_counts ++ dict_keys user_counts) ->
                   In id (dict_keys groups))
  \/ (exists id,
        attach_state project groups rules event_counts user_counts
        = Raise (KeyError id)
        /\ In id (dict_keys event_counts ++ dict_keys user_counts)
        /\ ~ In id (dict_keys groups)).
Proof.
  intros Hg Hr. rewrite attach_state_eq.
  apply (owned_forallb Group.project_id) in Hg.
  apply (owned_forallb Rule.project_id) in Hr.
  rewrite Hg, Hr.
  pose proof (dict_keys_map
                (fun g => Group.set_user_count 0
                            (Group.set_event_count 0 (Group.set_project g project)))
                groups) as Hkeys.
  destruct (overlay_result Group.set_event_count event_counts
              (List.map (fun kv => (fst kv, Group.set_user_count 0
                           (Group.set_event_count 0
                              (Group.set_project (snd kv) project)))) groups))
    as [(g1 & E1 & K1 & A1)|(id1 & E1 & I1 & O1)];
    cbv zeta in E1; rewrite E1; simpl.
  - destruct (overlay_result Group.set_user_count user_counts g1)
      as [(g2 & E2 & K2 & A2)|(id2 & E2 & I2 & O2)];
      cbv zeta in E2; rewrite E2; simpl.
    + left. eexists. split; [reflexivity|]. simpl.
      rewrite K2, K1, Hkeys. split; trivial.
      intros id Hin. apply in_app_or in Hin as [Hin|Hin].
      * rewrite <- Hkeys. auto.
      * rewrite <- Hkeys, <- K1. auto.
    + right. exists id2. rewrite <- Hkeys, <- K1.
      repeat split; trivial. apply in_or_app. now right.
  - right. exists id1. rewrite <- Hkeys.
    repeat split; trivial. apply in_or_app. now left.
Qed.

(** The assertions of [attach_state] and the counters it leaves. *)
Lemma attach_state_ownership_cases (project : Project.t) (groups : dict Group.t)
    (rules : dict Rule.t) (event_counts user_counts : dict Z) :
  ((exists id group,
      In (id, group) groups /\ Group.project_id group <> Project.id project)
   \/ (exists id rule,
      In (id, rule) rules /\ Rule.project_id rule <> Project.id project) ->
   exists msg,
     attach_state project groups rules event_counts user_counts
     = Raise (AssertionError msg))
  /\
  ((forall id group,
      In (id, group) groups -> Group.project_id group = Project.id project) ->
   (forall id rule,
      In (id, rule) rules -> Rule.project_id rule = Project.id project) ->
   (forall msg,
      attach_state project groups rules event_counts user_counts
      <> Raise (AssertionError msg))
   /\ (forall state,
         attach_state project groups rules event_counts user_counts = Ok state ->
         forall id group,
           In (id, group) (Attached.groups state) ->
           (~ In id (dict_keys event_counts) -> Group.event_count group = 0)
           /\ (~ In id (dict_keys user_counts) -> Group.user_count group = 0))
   /\ ((forall id, In id (dict_keys event_counts ++ dict_keys user_counts) ->
                   In id (dict_keys groups)) ->
       exists state,
         attach_state project groups rules event_counts user_counts = Ok state)).
Proof.
  rewrite attach_state_eq. split.
  - intros [(id & group & Hin & Hne)|(id & rule & Hin & Hne)].
    + destruct (forallb _ groups) eqn:Eg.
      * rewrite owned_forallb in Eg. now apply Eg in Hin.
      * eauto.
    + destruct (forallb _ groups); [|eauto].
      destruct (forallb _ rules) eqn:Er; [|eauto].
      rewrite owned_forallb in Er. now apply Er in Hin.
  - intros Hg Hr.
    apply (owned_forallb Group.project_id) in Hg.
    apply (owned_forallb Rule.project_id) in Hr.
    rewrite Hg, Hr.
    set (reset := List.map _ groups).
    assert (Hreset : Forall (fun kv => Group.event_count (snd kv) = 0
                                       /\ Group.user_count (snd kv) = 0) reset).
    { subst reset. apply Forall_forall. intros kv Hin.
      apply in_map_iff in Hin as (kv' & <- & _). now simpl. }
    assert (Hkeys : dict_keys reset = dict_keys groups)
      by (subst reset;
          apply (dict_keys_map (fun g => Group.set_user_count 0
                   (Group.set_event_count 0 (Group.set_project g project))))).
    destruct (overlay_result Group.set_event_count event_counts reset)
      as [(g1 & E1 & K1 & A1)|(id1 & E1 & I1 & O1)];
      cbv zeta in E1; rewrite E1; simpl.
    + destruct (overlay_result Group.set_user_count user_counts g1)
        as [(g2 & E2 & K2 & A2)|(id2 & E2 & I2 & O2)];
        cbv zeta in E2; rewrite E2; simpl.
      * split; [discriminate|]. split; [|eauto].
        intros state [= <-] id group Hin. simpl in Hin.
        split; intros Hout.
        -- pose proof (overlay_Forall Group.set_user_count
             (fun id g => ~ In id (dict_keys event_counts) -> Group.event_count g = 0)
             user_counts (fun _ _ _ _ Hv => Hv) g1 g2 E2) as H2.
           pose proof (overlay_Forall Group.set_event_count
             (fun id g => ~ In id (dict_keys event_counts) -> Group.event_count g = 0)
             event_counts) as H1.
           assert (F1 : Forall (fun kv => ~ In (fst kv) (dict_keys event_counts) ->
                                          Group.event_count (snd kv) = 0) g1).
           { apply (H1 (fun id' c v Hin' _ Hout' =>
                          False_ind _ (Hout' (in_map fst _ _ Hin'))) reset g1 E1).
             eapply Forall_impl; [|exact Hreset]. simpl. tauto. }
           apply H2 in F1. rewrite Forall_forall in F1.
           exact (F1 (id, group) Hin Hout).
        -- pose proof (overlay_Forall Group.set_user_count
             (fun id g => ~ In id (dict_keys user_counts) -> Group.user_count g = 0)
             user_counts
             (fun id' c v Hin' _ Hout' =>
                False_ind _ (Hout' (in_map fst _ _ Hin'))) g1 g2 E2) as H2.
           pose proof (overlay_Forall Group.set_event_count
             (fun id g => Group.user_count g = 0)
             event_counts (fun _ _ _ _ Hv => Hv) reset g1 E1) as H1.
           assert (F1 : Forall (fun kv => Group.user_count (snd kv) = 0) g1).
           { apply H1. eapply Forall_impl; [|exact Hreset]. simpl. tauto. }
           assert (F2 : Forall (fun kv => ~ In (fst kv) (dict_keys user_counts) ->
                                          Group.user_count (snd kv) = 0) g2).
           { apply H2. eapply Forall_impl; [|exact F1]. simpl. tauto. }
           rewrite Forall_forall in F2. exact (F2 (id, group) Hin Hout).
      * split; [discriminate|]. split; [discriminate|].
        intros Hall. exfalso. apply O2. rewrite K1, Hkeys.
        apply Hall, in_or_app. now right.
    + split; [discriminate|]. split; [discriminate|].
      intros Hall. exfalso. apply O1. rewrite Hkeys.
      apply Hall, in_or_app. now left.
Qed.

(** C10: a count entry whose id is not a key of [groups] keeps
    [attach_state] from returning; when the groups and rules belong to the
    project the failure is the [KeyError] of such an id. *)
Theorem attach_state_count_without_group (project : Project.t)
    (groups : dict Group.t) (rules : dict Rule.t)
    (event_counts user_counts : dict Z) :
  (exists id, In id (dict_keys event_counts ++ dict_keys user_counts)
              /\ ~ In id (dict_keys groups)) ->
  (forall state,
     attach_state project groups rules event_counts user_counts <> Ok state)
  /\ ((forall id group,
         In (id, group) groups -> Group.project_id group = Project.id project) ->
      (forall id rule,
         In (id, rule) rules -> Rule.project_id rule = Project.id project) ->
      exists id,
        attach_state project groups rules event_counts user_counts
        = Raise (KeyError id)
        /\ In id (dict_keys event_counts ++ dict_keys user_counts)
        /\ ~ In id (dict_keys groups)).
Proof.
  intros (id & Hin & Hout). split.
  - intros state E.
    assert (Hg : forall id group, In (id, group) groups ->
                   Group.project_id group = Project.id project).
    { apply owned_forallb. rewrite attach_state_eq in E.
      now destruct (forallb _ groups). }
    assert (Hr : forall id rule, In (id, rule) rules ->
                   Rule.project_id rule = Project.id project).
    { apply owned_forallb. rewrite attach_state_eq in E.
      destruct (forallb _ groups); [|discriminate].
      now destruct (forallb _ rules). }
    destruct (attach_state_cases project groups rules event_counts user_counts
                Hg Hr) as [(s & _ & _ & Hall)|(id' & E' & _)].
    + auto.
    + congruence.
  - intros Hg Hr.
    destruct (attach_state_cases project groups rules event_counts user_counts
                Hg Hr) as [(s & _ & _ & Hall)|Hraise]; [|exact Hraise].
    exfalso. auto.
Qed.

(** ** State fetcher *)

Lemma getitem_last_app {A} (init : list A) (x : A) :
  getitem_last (init ++ [x]) = Ok x.
Proof.
  induction init as [|y init IH]; simpl; trivial.
  destruct (init ++ [x]) eqn:E; trivial.
  now destruct init.
Qed.

Lemma mapM_reader {A B} (f : A -> M B) (g : A -> B) (st : Store)
    (l : list A) :
  (forall x, In x l -> f x st = Ok (g x, st)) ->
  mapM f l st = Ok (List.map g l, st).
Proof.
  induction l as [|x l IH]; simpl; intros Hf; trivial.
  unfold bind. rewrite (Hf x) by auto. rewrite IH by auto. reflexivity.
Qed.

Section FetchState.
Context `{Externals}.

Lemma getitem_ends {A} (l : list A) :
  l <> [] ->
  exists first rest init last,
    l = first :: rest /\ l = init ++ [last]
    /\ getitem_first l = Ok first /\ getitem_last l = Ok last.
Proof.
  intros Hne. destruct (exists_last Hne) as (init & last & Hlast).
  destruct l as [|first rest] eqn:El; [congruence|].
  exists first, rest, init, last.
  repeat split; trivial. rewrite Hlast. apply getitem_last_app.
Qed.

(** The state [fetch_state] returns, given the two ends of the batch. *)
Lemma fetch_state_run (project : Project.t) (records : list (Record_.t Z))
    (st : Store) (first last : Record_.t Z) :
  getitem_first records = Ok first ->
  getitem_last records = Ok last ->
  let groups :=
    Group_objects_in_bulk
      (List.map (fun record =>
         Event.group_id (st (Notification.event (Record_.value record))))
         records) in
  fetch_state project records st
  = Ok ({| State.project := project;
           State.groups := groups;
           State.rules :=
             Rule_objects_in_bulk
               (List.concat
                  (List.map (fun record =>
                     Notification.rules (Record_.value record)) records));
           State.event_counts :=
             tsdb_get_sums tsdb_models_group (dict_keys groups)
               (Record_datetime last) (Record_datetime first);
           State.user_counts :=
             tsdb_get_distinct_counts_totals
               tsdb_models_users_affected_by_group (dict_keys groups)
               (Record_datetime last) (Record_datetime first) |}, st).
Proof.
  intros Efirst Elast groups.
  unfold fetch_state, bind, lift.
  rewrite Elast, Efirst. cbn [Result_bind].
  now rewrite (mapM_reader _
                 (fun record =>
                    Event.group_id
                      (st (Notification.event (Record_.value record)))))
    by reflexivity.
Qed.

Lemma fetch_state_returns (project : Project.t)
    (records : list (Record_.t Z)) (st : Store) :
  records <> [] ->
  exists state, fetch_state project records st = Ok (state, st).
Proof.
  intros Hne.
  destruct (getitem_ends records Hne)
    as (first & _ & _ & last & _ & _ & Efirst & Elast).
  eexists. exact (fetch_state_run project records st first last Efirst Elast).
Qed.

Lemma fetch_state_store (project : Project.t) (records : list (Record_.t Z))
    (st st' : Store) (state : State.t) :
  fetch_state project records st = Ok (state, st') -> st' = st.
Proof.
  destruct records as [|first rest]; [discriminate|].
  destruct (fetch_state_returns project (first :: rest) st) as [state' E];
    [discriminate|].
  rewrite E. now intros [= _ <-].
Qed.

(** C7: for a batch that is not empty, [fetch_state] returns, and both
    counter queries run from the date-time of the last record of the batch
    to the date-time of its first record. *)
Theorem fetch_state_interval (project : Project.t)
    (records : list (Record_.t Z)) (st : Store) :
  records <> [] ->
  exists first rest init last state,
    records = first :: rest /\ records = init ++ [last]
    /\ fetch_state project records st = Ok (state, st)
    /\ State.event_counts state
       = tsdb_get_sums tsdb_models_group (dict_keys (State.groups state))
           (to_datetime (Record_.timestamp last))
           (to_datetime (Record_.timestamp first))
    /\ State.user_counts state
       = tsdb_get_distinct_counts_totals tsdb_models_users_affected_by_group
           (dict_keys (State.groups state))
           (to_datetime (Record_.timestamp last))
           (to_datetime (Record_.timestamp first)).
Proof.
  intros Hne.
  destruct (getitem_ends records Hne)
    as (first & rest & init & last & Hfirst & Hlast & Efirst & Elast).
  exists first, rest, init, last. eexists.
  split; [exact Hfirst|]. split; [exact Hlast|].
  split; [exact (fetch_state_run project records st first last Efirst Elast)|].
  split; reflexivity.
Qed.
End FetchState.

(** ** Pipeline stages *)

Lemma filterM_reader {A} (f : A -> M bool) (p : A -> bool) (st : Store)
    (l : list A) :
  (forall x, In x l -> f x st = Ok (p x, st)) ->
  filterM f l st = Ok (List.filter p l, st).
Proof.
  induction l as [|x l IH]; simpl; intros Hf; trivial.
  unfold bind. rewrite (Hf x) by auto. rewrite IH by auto.
  unfold ret. now destruct (p x).
Qed.

Lemma foldM_reader {A B} (f : B -> A -> M B) (g : B -> A -> B) (st : Store)
    (l : list A) :
  (forall acc x, In x l -> f acc x st = Ok (g acc x, st)) ->
  forall acc, foldM f l acc st = Ok (fold_left g l acc, st).
Proof.
  induction l as [|x l IH]; simpl; intros Hf acc; trivial.
  unfold bind. rewrite (Hf acc x) by auto. apply IH. auto.
Qed.

(** *** The map stage *)

Lemma Store_set_group_id (st : Store) (event : EventRef) (g : Group.t)
    (r : EventRef) :
  Event.group_id (Store_set st event (Event.set_group (st event) g) r)
  = Event.group_id (st r).
Proof.
  unfold Store_set. destruct (Nat.eqb_spec r event) as [->|]; reflexivity.
Qed.

Lemma rewrite_record_run (record : Record_.t Z) (project : Project.t)
    (groups : dict Group.t) (rules : dict Rule.t) (st : Store) :
  rewrite_record record project groups rules st
  = match resolved_group groups st record with
    | Some group =>
        let event := Notification.event (Record_.value record) in
        Ok (Some (rewritten rules record),
            Store_set st event (Event.set_group (st event) group))
    | None => Ok (None, st)
    end.
Proof.
  unfold rewrite_record, resolved_group, bind, Event_group_id.
  now destruct (dict_get groups _).
Qed.

Section MapStage.
Variables (project : Project.t) (groups : dict Group.t) (rules : dict Rule.t).

Lemma attach_events_group_id (records : list (Record_.t Z)) (st : Store)
    (r : EventRef) :
  Event.group_id (attach_events groups records st r) = Event.group_id (st r).
Proof.
  revert st. induction records as [|record records IH]; intros st; trivial.
  simpl. rewrite IH.
  destruct (resolved_group groups st record); trivial.
  apply Store_set_group_id.
Qed.

Lemma resolved_group_attach_events (records : list (Record_.t Z))
    (st : Store) (record : Record_.t Z) :
  resolved_group groups (attach_events groups records st) record
  = resolved_group groups st record.
Proof. unfold resolved_group. now rewrite attach_events_group_id. Qed.

(** An event whose group is attached keeps it through later records. *)
Lemma attach_events_settled (records : list (Record_.t Z)) (st : Store)
    (r : EventRef) (g : Group.t) :
  dict_get groups (Event.group_id (st r)) = Some g ->
  Event.group (st r) = Some g ->
  Event.group (attach_events groups records st r) = Some g.
Proof.
  revert st. induction records as [|record records IH]; intros st Hg Hs;
    trivial.
  simpl. apply IH.
  - destruct (resolved_group groups st record); trivial.
    now rewrite Store_set_group_id.
  - destruct (resolved_group groups st record) as [g'|] eqn:E; trivial.
    unfold Store_set.
    destruct (Nat.eqb_spec r (Notification.event (Record_.value record)))
      as [->|]; trivial.
    unfold resolved_group in E. simpl. congruence.
Qed.

Lemma attach_events_group (records : list (Record_.t Z)) (st : Store)
    (record : Record_.t Z) (g : Group.t) :
  In record records ->
  resolved_group groups st record = Some g ->
  Event.group
    (attach_events groups records st
       (Notification.event (Record_.value record))) = Some g.
Proof.
  revert st. induction records as [|record' records IH]; intros st Hin Hg;
    [contradiction|].
  simpl. destruct Hin as [->|Hin].
  - rewrite Hg. apply attach_events_settled.
    + now rewrite Store_set_group_id.
    + unfold Store_set. now rewrite Nat.eqb_refl.
  - apply IH; trivial.
    destruct (resolved_group groups st record') eqn:E; trivial.
    unfold resolved_group in *. now rewrite Store_set_group_id.
Qed.

Lemma mapM_rewrite_record (records : list (Record_.t Z)) (st : Store) :
  mapM (fun record => rewrite_record record project groups rules) records st
  = Ok (List.map (fun record =>
                    match resolved_group groups st record with
                    | Some _ => Some (rewritten rules record)
                    | None => None
                    end) records,
        attach_events groups records st).
Proof.
  revert st. induction records as [|record records IH]; intros st; trivial.
  simpl. unfold bind. rewrite rewrite_record_run.
  destruct (resolved_group groups st record) as [g|] eqn:E; cbv zeta;
    cbv iota beta.
  - rewrite IH. unfold ret. do 3 f_equal.
    apply List.map_ext. intros record'. unfold resolved_group.
    now rewrite Store_set_group_id.
  - rewrite IH. reflexivity.
Qed.
End MapStage.

(** *** The filters and the fold *)

Section FilterAndReduce.
Context `{Externals}.
Variable state : Attached.t.

Lemma survivors_In (st : Store) (records : list (Record_.t Z))
    (group : Group.t) (record' : Record_.t Rule.t) :
  In (group, record') (survivors state st records)
  <-> exists record,
        In record records
        /\ resolved_group (Attached.groups state) st record = Some group
        /\ Group_get_status group = UNRESOLVED
        /\ record' = rewritten (Attached.rules state) record.
Proof.
  unfold survivors. rewrite in_flat_map. split.
  - intros (record & Hin & Hgr). exists record.
    destruct (resolved_group _ st record) as [g|]; [|contradiction].
    destruct (Group_get_status g) eqn:Es; simpl in Hgr; try contradiction.
    destruct Hgr as [[= <- <-]|[]]. auto.
  - intros (record & Hin & Hg & Hs & ->). exists record.
    rewrite Hg, Hs. simpl. auto.
Qed.

Lemma check_group_state_run (st1 : Store) (record : Record_.t Rule.t)
    (g : Group.t) :
  Event.group (st1 (Notification.event (Record_.value record))) = Some g ->
  check_group_state (Some record) st1
  = Ok (GroupStatus_eqb (Group_get_status g) UNRESOLVED, st1).
Proof.
  intros Hg. unfold check_group_state, bind, Event_group. now rewrite Hg.
Qed.

Lemma group_records_run (st1 : Store) (groups : Digest)
    (record : Record_.t Rule.t) (g : Group.t) :
  Event.group (st1 (Notification.event (Record_.value record))) = Some g ->
  group_records groups (Some record) st1
  = Ok (insert_record groups g record, st1).
Proof.
  intros Hg. unfold group_records, bind, Event_group. now rewrite Hg.
Qed.

(** The two filters, run on the output of the map stage with the store the
    map stage leaves. *)
Lemma filter_stages (st st1 : Store) (records : list (Record_.t Z)) :
  (forall record g,
     In record records ->
     resolved_group (Attached.groups state) st record = Some g ->
     Event.group (st1 (Notification.event (Record_.value record))) = Some g) ->
  filterM check_group_state
    (List.filter bool_
       (List.map (fun record =>
          match resolved_group (Attached.groups state) st record with
          | Some _ => Some (rewritten (Attached.rules state) record)
          | None => None
          end) records)) st1
  = Ok (List.map (fun gr => Some (snd gr)) (survivors state st records), st1).
Proof.
  induction records as [|record records IH]; intros Hst1; trivial.
  assert (IH' := IH (fun r g Hin => Hst1 r g (or_intror Hin))). clear IH.
  unfold survivors. cbn [List.map flat_map]. fold (survivors state st records).
  destruct (resolved_group (Attached.groups state) st record) as [g|] eqn:E;
    cbn [List.filter bool_ filterM]; trivial.
  unfold bind.
  rewrite (check_group_state_run st1 _ g)
    by exact (Hst1 record g (or_introl eq_refl) E).
  rewrite IH'. unfold ret.
  now destruct (GroupStatus_eqb (Group_get_status g) UNRESOLVED).
Qed.

Lemma reduce_stage (st1 : Store)
    (survs : list (Group.t * Record_.t Rule.t)) (groups : Digest) :
  (forall g record,
     In (g, record) survs ->
     Event.group (st1 (Notification.event (Record_.value record))) = Some g) ->
  foldM group_records (List.map (fun gr => Some (snd gr)) survs) groups st1
  = Ok (fold_left (fun groups gr => insert_record groups (fst gr) (snd gr))
          survs groups, st1).
Proof.
  revert groups.
  induction survs as [|[g record] survs IH]; intros groups Hst1; trivial.
  cbn [List.map foldM fold_left fst snd]. unfold bind.
  rewrite (group_records_run st1 groups record g) by (apply Hst1; now left).
  apply IH. intros; apply Hst1; now right.
Qed.

Lemma digest_pipeline_run (records : list (Record_.t Z)) (st : Store) :
  Pipeline.call (digest_pipeline state) records st
  = Ok (sort_rule_groups (sort_group_contents
          (grouped (survivors state st records))),
        attach_events (Attached.groups state) records st).
Proof.
  unfold digest_pipeline, Pipeline.apply, Pipeline.reduce, Pipeline.filter,
    Pipeline.map.
  cbn [Pipeline.call]. unfold bind.
  unfold ret at 1. rewrite mapM_rewrite_record.
  rewrite (filterM_reader _ bool_) by reflexivity.
  rewrite filter_stages.
  - unfold ret at 1. rewrite reduce_stage; [reflexivity|].
    intros g record' Hin. apply survivors_In in Hin as (record & Hin & Hg & _ & ->).
    now apply attach_events_group.
  - intros record g Hin Hg. now apply attach_events_group.
Qed.
End FilterAndReduce.

(** ** Digest builder *)

Section BuildDigest.
Context `{Externals}.

Lemma build_digest_cons (project : Project.t) (record : Record_.t Z)
    (records : list (Record_.t Z)) (state : option State.t) (st : Store) :
  build_digest project (record :: records) state st
  = match match state with
          | None => fetch_state project (record :: records) st
          | Some state => Ok (state, st)
          end with
    | Ok (state, st0) =>
        match attach_state (State.project state) (State.groups state)
                (State.rules state) (State.event_counts state)
                (State.user_counts state) with
        | Ok attached =>
            match Pipeline.call (digest_pipeline attached)
                    (record :: records) st0 with
            | Ok (digest, st') => Ok (Some digest, st')
            | Raise e => Raise e
            end
        | Raise e => Raise e
        end
    | Raise e => Raise e
    end.
Proof.
  unfold build_digest, bind, lift, ret.
  destruct state as [state|].
  - destruct (attach_state _ _ _ _ _); trivial.
  - destruct (fetch_state _ _ _) as [[state st0]|]; trivial.
    destruct (attach_state _ _ _ _ _); trivial.
Qed.

(** What [build_digest] returned came out of the pipeline, run on the
    store [build_digest] started from. *)
Lemma build_digest_inv (project : Project.t) (records : list (Record_.t Z))
    (state : option State.t) (st st' : Store) (digest : Digest) :
  build_digest project records state st = Ok (Some digest, st') ->
  exists attached,
    Pipeline.call (digest_pipeline attached) records st = Ok (digest, st').
Proof.
  destruct records as [|record records]; [discriminate|].
  rewrite build_digest_cons.
  destruct state as [state|].
  - destruct (attach_state _ _ _ _ _) as [attached|]; [|discriminate].
    destruct (Pipeline.call _ _ _) as [[d s]|] eqn:E; [|discriminate].
    intros [= <- <-]. eauto.
  - destruct (fetch_state _ _ _) as [[state st0]|] eqn:Ef; [|discriminate].
    apply fetch_state_store in Ef as ->.
    destruct (attach_state _ _ _ _ _) as [attached|]; [|discriminate].
    destruct (Pipeline.call _ _ _) as [[d s]|] eqn:E; [|discriminate].
    intros [= <- <-]. eauto.
Qed.

(** C1: on an empty batch [build_digest] returns [None]; on any other batch
    it never returns [None]: it returns a mapping when [attach_state]
    accepts the state, given or fetched, as it does when every group and
    rule of the state belongs to its project and every counted id is a
    group; and it raises what [attach_state] raises when it does not. *)
Theorem build_digest_None_iff_empty (project : Project.t)
    (records : list (Record_.t Z)) (state : option State.t) (st : Store) :
  (records = [] -> build_digest project records state st = Ok (None, st))
  /\ (records <> [] ->
      (forall st', build_digest project records state st <> Ok (None, st'))
      /\ exists s,
           (state = Some s
            \/ state = None /\ fetch_state project records st = Ok (s, st))
           /\ (forall attached,
                 attach_state (State.project s) (State.groups s)
                   (State.rules s) (State.event_counts s)
                   (State.user_counts s) = Ok attached ->
                 exists digest st',
                   build_digest project records state st
                   = Ok (Some digest, st'))
           /\ ((forall id group,
                  In (id, group) (State.groups s) ->
                  Group.project_id group = Project.id (State.project s)) ->
               (forall id rule,
                  In (id, rule) (State.rules s) ->
                  Rule.project_id rule = Project.id (State.project s)) ->
               (forall id,
                  In id (dict_keys (State.event_counts s)
                         ++ dict_keys (State.user_counts s)) ->
                  In id (dict_keys (State.groups s))) ->
               exists digest st',
                 build_digest project records state st
                 = Ok (Some digest, st'))
           /\ (forall e,
                 attach_state (State.project s) (State.groups s)
                   (State.rules s) (State.event_counts s)
                   (State.user_counts s) = Raise e ->
                 build_digest project records state st = Raise e)).
Proof.
  split; [now intros ->|].
  intros Hne. destruct records as [|record records]; [congruence|].
  rewrite build_digest_cons. split.
  - intros st'.
    destruct (match state with None => _ | Some _ => _ end) as [[s st0]|];
      [|discriminate].
    destruct (attach_state _ _ _ _ _); [|discriminate].
    rewrite digest_pipeline_run. discriminate.
  - assert (Hfetched : exists s,
               (state = Some s
                \/ state = None
                   /\ fetch_state project (record :: records) st = Ok (s, st))
               /\ match state with
                  | Some state => Ok (state, st)
                  | None => fetch_state project (record :: records) st
                  end = Ok (s, st)).
    { destruct state as [s|]; [now eauto|].
      destruct (fetch_state_returns project (record :: records) st)
        as [s E]; [discriminate|]. eauto. }
    destruct Hfetched as (s & Hs & ->). exists s. split; [exact Hs|].
    assert (Hok : forall attached,
               attach_state (State.project s) (State.groups s)
                 (State.rules s) (State.event_counts s)
                 (State.user_counts s) = Ok attached ->
               exists digest st',
                 match
                   attach_state (State.project s) (State.groups s)
                     (State.rules s) (State.event_counts s)
                     (State.user_counts s)
                 with
                 | Ok attached =>
                     match Pipeline.call (digest_pipeline attached)
                             (record :: records) st with
                     | Ok (digest, st') => Ok (Some digest, st')
                     | Raise e => Raise e
                     end
                 | Raise e => Raise e
                 end = Ok (Some digest, st')).
    { intros attached ->. rewrite digest_pipeline_run. eauto. }
    split; [exact Hok|]. split; [|now intros e ->].
    intros Hgroups Hrules Hcounts.
    destruct (proj2 (attach_state_ownership_cases (State.project s)
                       (State.groups s) (State.rules s)
                       (State.event_counts s) (State.user_counts s))
                Hgroups Hrules) as (_ & _ & Hreturns).
    destruct (Hreturns Hcounts) as [attached E]. exact (Hok attached E).
Qed.

(** C5: a group or a rule of another project makes [attach_state] fail its
    assertion, and [build_digest] on a state with such a group or rule fails
    with it.  When every group and rule belongs to the project no assertion
    fails, and [attach_state] returns whenever every counted id is a group.
    What it returns then holds the groups it was given, under the same ids
    in the same order; each of them has [event_count = 0] unless
    [event_counts] names its id and [user_count = 0] unless [user_counts]
    does; and, the keys of the dictionaries being distinct, each is the
    group given with the project attached and with the two counts filed
    under its id, 0 standing for a count that is not filed. *)
Theorem attach_state_ownership (project : Project.t) (groups : dict Group.t)
    (rules : dict Rule.t) (event_counts user_counts : dict Z) :
  ((exists id group,
      In (id, group) groups /\ Group.project_id group <> Project.id project)
   \/ (exists id rule,
      In (id, rule) rules /\ Rule.project_id rule <> Project.id project) ->
   (exists msg,
      attach_state project groups rules event_counts user_counts
      = Raise (AssertionError msg))
   /\ forall requested record records st,
        exists msg,
          build_digest requested (record :: records)
            (Some {| State.project := project; State.groups := groups;
                     State.rules := rules;
                     State.event_counts := event_counts;
                     State.user_counts := user_counts |}) st
          = Raise (AssertionError msg))
  /\
  ((forall id group,
      In (id, group) groups -> Group.project_id group = Project.id project) ->
   (forall id rule,
      In (id, rule) rules -> Rule.project_id rule = Project.id project) ->
   (forall msg,
      attach_state project groups rules event_counts user_counts
      <> Raise (AssertionError msg))
   /\ (forall state,
         attach_state project groups rules event_counts user_counts = Ok state ->
         dict_keys (Attached.groups state) = dict_keys groups
         /\ (forall id group,
               In (id, group) (Attached.groups state) ->
               (~ In id (dict_keys event_counts) ->
                Group.event_count group = 0)
               /\ (~ In id (dict_keys user_counts) ->
                   Group.user_count group = 0))
         /\ (NoDup (dict_keys groups) ->
             NoDup (dict_keys event_counts) ->
             NoDup (dict_keys user_counts) ->
             Attached.groups state
             = List.map (fun kv =>
                 (fst kv,
                  {| Group.id := Group.id (snd kv);
                     Group.project_id := Group.project_id (snd kv);
                     Group.status := Group.status (snd kv);
                     Group.project := Some project;
                     Group.event_count :=
                       dict_get_default event_counts (fst kv) 0;
                     Group.user_count :=
                       dict_get_default user_counts (fst kv) 0 |}))
                 groups))
   /\ ((forall id, In id (dict_keys event_counts ++ dict_keys user_counts) ->
                   In id (dict_keys groups)) ->
       exists state,
         attach_state project groups rules event_counts user_counts = Ok state)).
Proof.
  destruct (attach_state_ownership_cases project groups rules event_counts
              user_counts) as [Hfatal Howned].
  split.
  - intros Hforeign. destruct (Hfatal Hforeign) as [msg E].
    split; [now exists msg|].
    intros requested record records st. exists msg.
    rewrite build_digest_cons. simpl. now rewrite E.
  - intros Hg Hr. destruct (Howned Hg Hr) as (Hno & Hzero & Hreturns).
    split; [exact Hno|]. split; [|exact Hreturns].
    intros state E. split; [|split; [exact (Hzero state E)|]].
    + destruct (attach_state_cases project groups rules event_counts
                  user_counts Hg Hr) as [(s & E' & Hkeys & _)|(id & E' & _)];
        [|congruence].
      rewrite E in E'. injection E' as <-. exact Hkeys.
    + intros Hgroups Hevents Husers. revert E. rewrite attach_state_eq.
      destruct (forallb _ groups); [|discriminate].
      destruct (forallb _ rules); [|discriminate].
      destruct (Result_fold _ event_counts _) as [groups1|] eqn:E1;
        [|discriminate].
      simpl.
      destruct (Result_fold _ user_counts groups1) as [groups2|] eqn:E2;
        [|discriminate].
      simpl. intros [= <-]. simpl.
      apply (overlay_map Group.set_event_count event_counts Hevents) in E1;
        [|unfold dict_keys; rewrite List.map_map; exact Hgroups].
      apply (overlay_map Group.set_user_count user_counts Husers) in E2;
        [|rewrite E1; unfold dict_keys; rewrite !List.map_map; exact Hgroups].
      rewrite E2, E1, !List.map_map. apply List.map_ext.
      intros [id group]. simpl. unfold dict_get_default.
      destruct (dict_get event_counts id), (dict_get user_counts id);
        reflexivity.
Qed.
End BuildDigest.

(** ** Mappings keyed by model instances *)

Section ModelKeyedFacts.
Context {K V : Type} `{Model K}.

Lemma pks_app (d d' : odict K V) : pks (d ++ d') = pks d ++ pks d'.
Proof. apply List.map_app. Qed.

Lemma odict_get_In (d : odict K V) (k : K) (v : V) :
  odict_get d k = Some v -> exists k', pk k' = pk k /\ In (k', v) d.
Proof.
  induction d as [|[k' v'] d IH]; simpl; [discriminate|].
  destruct (Z.eqb_spec (pk k') (pk k)).
  - intros [= ->]. eauto.
  - intros E. destruct (IH E) as (k'' & ? & ?). eauto.
Qed.

Lemma In_odict_get (d : odict K V) (k : K) (v : V) :
  NoDup (pks d) -> In (k, v) d -> odict_get d k = Some v.
Proof.
  induction d as [|[k' v'] d IH]; simpl; [contradiction|].
  intros Hnd Hin. inversion_clear Hnd as [|? ? Hout Hnd'].
  destruct Hin as [[= -> ->]|Hin].
  - now rewrite Z.eqb_refl.
  - destruct (Z.eqb_spec (pk k') (pk k)) as [E|]; [|auto].
    exfalso. apply Hout. rewrite E.
    exact (in_map (fun kv => pk (fst kv)) _ _ Hin).
Qed.

Lemma odict_get_None (d : odict K V) (k : K) :
  odict_get d k = None <-> ~ In (pk k) (pks d).
Proof.
  induction d as [|[k' v'] d IH]; simpl; [tauto|].
  destruct (Z.eqb_spec (pk k') (pk k)).
  - split; [discriminate|tauto].
  - tauto.
Qed.

Lemma odict_set_fresh (d : odict K V) (k : K) (v : V) :
  ~ In (pk k) (pks d) -> odict_set d k v = d ++ [(k, v)].
Proof.
  induction d as [|[k' v'] d IH]; simpl; intros Hout; trivial.
  destruct (Z.eqb_spec (pk k') (pk k)); [tauto|].
  rewrite IH; tauto.
Qed.

Lemma odict_set_present (pre post : odict K V) (k : K) (v v' : V) :
  ~ In (pk k) (pks pre) ->
  odict_set (pre ++ (k, v) :: post) k v' = pre ++ (k, v') :: post.
Proof.
  induction pre as [|[k' v''] pre IH]; simpl; intros Hout.
  - now rewrite Z.eqb_refl.
  - destruct (Z.eqb_spec (pk k') (pk k)); [tauto|].
    rewrite IH; tauto.
Qed.

Lemma NoDup_app_cons {A} (l l' : list A) (x : A) :
  NoDup (l ++ x :: l') -> ~ In x l /\ NoDup ((l ++ [x]) ++ l').
Proof.
  intros Hnd. split.
  - apply NoDup_remove_2 in Hnd. intros Hin. apply Hnd, in_or_app. now left.
  - now rewrite <- app_assoc.
Qed.

(** [OrderedDict] of the items of a mapping is that mapping. *)
Lemma OrderedDict_items (items : list (K * V)) :
  NoDup (pks items) -> OrderedDict items = items.
Proof.
  unfold OrderedDict.
  enough (Hgen : forall acc,
             NoDup (pks (acc ++ items)) ->
             fold_left (fun d kv => odict_set d (fst kv) (snd kv)) items acc
             = acc ++ items) by apply (Hgen []).
  induction items as [|[k v] items IH]; simpl; intros acc Hnd.
  - now rewrite app_nil_r.
  - rewrite pks_app in Hnd. simpl in Hnd.
    apply NoDup_app_cons in Hnd as [Hout Hnd].
    rewrite odict_set_fresh by trivial.
    rewrite IH; [now rewrite <- app_assoc|].
    now rewrite !pks_app.
Qed.

(** Assigning to every key of a mapping while iterating over it. *)
Lemma fold_odict_set_values (g : V -> V) (d : odict K V) :
  NoDup (pks d) ->
  fold_left (fun d kv => let '(k, v) := kv in odict_set d k (g v)) d d
  = List.map (fun kv => (fst kv, g (snd kv))) d.
Proof.
  enough (Hgen : forall items pre,
             NoDup (pks (pre ++ items)) ->
             fold_left (fun d kv => let '(k, v) := kv in odict_set d k (g v))
               items (List.map (fun kv => (fst kv, g (snd kv))) pre ++ items)
             = List.map (fun kv => (fst kv, g (snd kv))) (pre ++ items))
    by apply (Hgen d []).
  induction items as [|[k v] items IH]; simpl; intros pre Hnd.
  - rewrite app_nil_r. f_equal. now rewrite app_nil_r.
  - pose proof Hnd as Hnd'.
    rewrite pks_app in Hnd'. simpl in Hnd'.
    apply NoDup_app_cons in Hnd' as [Hout _].
    rewrite odict_set_present.
    + specialize (IH (pre ++ [(k, v)])).
      rewrite List.map_app, <- !app_assoc in IH. simpl in IH.
      now apply IH.
    + unfold pks in *. rewrite List.map_map. exact Hout.
Qed.

Lemma pks_defaultdict_update (default : V) (d : odict K V) (k : K)
    (f : V -> V) :
  (In (pk k) (pks d) /\ pks (defaultdict_update default d k f) = pks d)
  \/ (~ In (pk k) (pks d)
      /\ pks (defaultdict_update default d k f) = pks d ++ [pk k]).
Proof.
  unfold pks.
  induction d as [|[k' v] d IH]; simpl; [now right|].
  destruct (Z.eqb_spec (pk k') (pk k)).
  - left. auto.
  - simpl. destruct IH as [[Hin ->]|[Hout ->]]; [left|right]; tauto.
Qed.

Lemma NoDup_snoc {A} (l : list A) (x : A) :
  NoDup l -> ~ In x l -> NoDup (l ++ [x]).
Proof.
  intros Hnd Hout. apply (Permutation_NoDup (l := x :: l)).
  - apply Permutation_cons_append.
  - now constructor.
Qed.

Lemma defaultdict_update_NoDup (default : V) (d : odict K V) (k : K)
    (f : V -> V) :
  NoDup (pks d) -> NoDup (pks (defaultdict_update default d k f)).
Proof.
  intros Hnd.
  destruct (pks_defaultdict_update default d k f) as [[_ ->]|[Hout ->]];
    trivial.
  now apply NoDup_snoc.
Qed.

Lemma defaultdict_update_Forall (P : K -> V -> Prop) (default : V)
    (d : odict K V) (k : K) (f : V -> V) :
  P k (f default) ->
  (forall k' v, pk k' = pk k -> P k' v -> P k' (f v)) ->
  Forall (fun kv => P (fst kv) (snd kv)) d ->
  Forall (fun kv => P (fst kv) (snd kv)) (defaultdict_update default d k f).
Proof.
  intros Hnew Hupd.
  induction d as [|[k' v] d IH]; simpl; intros Hd.
  - now constructor.
  - inversion_clear Hd as [|? ? Hv Hd']. simpl in Hv.
    destruct (Z.eqb_spec (pk k') (pk k)); constructor; simpl; auto.
Qed.

Lemma odict_get_defaultdict_update (default : V) (d : odict K V) (k k' : K)
    (f : V -> V) :
  odict_get (defaultdict_update default d k f) k'
  = if pk k =? pk k'
    then Some (f (match odict_get d k with Some v => v | None => default end))
    else odict_get d k'.
Proof.
  induction d as [|[k0 v] d IH]; simpl.
  - now destruct (pk k =? pk k').
  - destruct (Z.eqb_spec (pk k0) (pk k)) as [E|NE]; simpl.
    + rewrite E. now destruct (pk k =? pk k').
    + rewrite IH.
      destruct (Z.eqb_spec (pk k0) (pk k')) as [E'|];
        destruct (Z.eqb_spec (pk k) (pk k')); trivial.
      congruence.
Qed.
End ModelKeyedFacts.

(** ** Sorting *)

Section SortedReverseFacts.
Context {A K : Type} (ltb : K -> K -> bool) (key : A -> K).

Lemma insert_reverse_Permutation (x : A) (l : list A) :
  Permutation (insert_reverse ltb key x l) (x :: l).
Proof.
  induction l as [|y l IH]; simpl; trivial.
  destruct (ltb (key x) (key y)); trivial.
  rewrite IH. apply perm_swap.
Qed.

Lemma sorted_reverse_Permutation (l : list A) :
  Permutation (sorted_reverse ltb key l) l.
Proof.
  induction l as [|x l IH]; simpl; trivial.
  rewrite insert_reverse_Permutation. now constructor.
Qed.

Lemma sorted_reverse_In (x : A) (l : list A) :
  In x (sorted_reverse ltb key l) <-> In x l.
Proof.
  split; apply Permutation_in;
    [|symmetry]; apply sorted_reverse_Permutation.
Qed.

(** What the comparison of keys must satisfy for the result to be in
    order; tuples and integers do. *)
Hypothesis ltb_asym : forall a b, ltb a b = true -> ltb b a = false.
Hypothesis ltb_negtrans :
  forall a b c, ltb a b = false -> ltb b c = false -> ltb a c = false.

Lemma insert_reverse_descending (x : A) (l : list A) :
  descending ltb key l -> descending ltb key (insert_reverse ltb key x l).
Proof.
  unfold descending.
  induction l as [|y l IH]; simpl; intros Hl.
  - repeat constructor.
  - inversion_clear Hl as [|? ? Hl' Hy].
    destruct (ltb (key x) (key y)) eqn:E.
    + constructor; auto.
      apply (Permutation_Forall
               (Permutation_sym (insert_reverse_Permutation x l))).
      constructor; auto.
    + constructor; [now constructor|].
      constructor; trivial.
      eapply Forall_impl; [|exact Hy]. simpl. eauto.
Qed.

Lemma sorted_reverse_descending (l : list A) :
  descending ltb key (sorted_reverse ltb key l).
Proof.
  induction l as [|x l IH]; simpl.
  - constructor.
  - now apply insert_reverse_descending.
Qed.

Lemma descending_nth_error (l : list A) (i j : nat) (a b : A) :
  descending ltb key l ->
  nth_error l i = Some a -> nth_error l j = Some b ->
  ltb (key b) (key a) = true -> (i < j)%nat.
Proof.
  unfold descending. intros Hl. revert i j.
  induction Hl as [|x l Hl IH Hx]; intros i j Ha Hb Hlt.
  - now destruct i.
  - destruct i as [|i], j as [|j]; simpl in Ha, Hb.
    + injection Ha as ->. injection Hb as ->.
      pose proof (ltb_asym _ _ Hlt). congruence.
    + lia.
    + injection Hb as ->. apply nth_error_In in Ha.
      rewrite Forall_forall in Hx. apply Hx in Ha. congruence.
    + apply -> Nat.succ_lt_mono. eauto.
Qed.
End SortedReverseFacts.

Lemma tuple_ltb_spec (a b : Z * Z) :
  tuple_ltb a b = true
  <-> fst a < fst b \/ (fst a = fst b /\ snd a < snd b).
Proof. unfold tuple_ltb. lia. Qed.

Lemma tuple_ltb_asym (a b : Z * Z) :
  tuple_ltb a b = true -> tuple_ltb b a = false.
Proof.
  intros Hab. apply not_true_is_false. rewrite tuple_ltb_spec in *. lia.
Qed.

Lemma tuple_ltb_negtrans (a b c : Z * Z) :
  tuple_ltb a b = false -> tuple_ltb b c = false -> tuple_ltb a c = false.
Proof.
  intros Hab Hbc. apply not_true_is_false.
  apply not_true_iff_false in Hab, Hbc. rewrite tuple_ltb_spec in *. lia.
Qed.

Lemma len_ltb_asym (a b : nat) : len_ltb a b = true -> len_ltb b a = false.
Proof. unfold len_ltb. rewrite Nat.ltb_lt, Nat.ltb_ge. lia. Qed.

Lemma len_ltb_negtrans (a b c : nat) :
  len_ltb a b = false -> len_ltb b c = false -> len_ltb a c = false.
Proof. unfold len_ltb. rewrite !Nat.ltb_ge. lia. Qed.

(** ** The grouped digest and its sorts *)

Lemma insert_record_well_keyed (d : Digest) (g : Group.t)
    (r : Record_.t Rule.t) :
  well_keyed d -> well_keyed (insert_record d g r).
Proof.
  unfold insert_record. generalize (Notification.rules (Record_.value r)).
  intros rules. revert d.
  induction rules as [|rule rules IH]; simpl; intros d Hd; trivial.
  apply IH. destruct Hd as [Hnd Hin]. split.
  - now apply defaultdict_update_NoDup.
  - apply (defaultdict_update_Forall (fun _ v => NoDup (pks v))); trivial.
    + apply defaultdict_update_NoDup. constructor.
    + intros _ v _. apply defaultdict_update_NoDup.
Qed.

Lemma grouped_well_keyed (survs : list (Group.t * Record_.t Rule.t)) :
  well_keyed (grouped survs).
Proof.
  unfold grouped.
  enough (Hgen : forall d, well_keyed d ->
            well_keyed (fold_left (fun groups gr =>
                          insert_record groups (fst gr) (snd gr)) survs d)).
  { apply Hgen. split; constructor. }
  induction survs as [|[g r] survs IH]; simpl; intros d Hd; trivial.
  now apply IH, insert_record_well_keyed.
Qed.

Lemma sorted_reverse_NoDup_pks {K V} `{Model K} {C} (ltb : C -> C -> bool)
    (key : K * V -> C) (d : odict K V) :
  NoDup (pks d) -> NoDup (pks (sorted_reverse ltb key d)).
Proof.
  apply Permutation_NoDup. unfold pks. apply Permutation_map.
  symmetry. apply sorted_reverse_Permutation.
Qed.

Lemma sort_group_contents_eq (d : Digest) :
  well_keyed d ->
  sort_group_contents d
  = List.map (fun kv =>
      (fst kv,
       sorted_reverse tuple_ltb
         (fun x => (Group.event_count (fst x), Group.user_count (fst x)))
         (snd kv))) d.
Proof.
  intros [Hnd Hin]. unfold sort_group_contents.
  etransitivity.
  { exact (fold_odict_set_values
             (fun groups : odict Group.t (list (option (Record_.t Rule.t))) =>
                OrderedDict
                  (sorted_reverse tuple_ltb
                     (fun x => (Group.event_count (fst x),
                                Group.user_count (fst x))) groups))
             d Hnd). }
  apply List.map_ext_in. intros [rule by_group] Hkv. simpl. f_equal.
  apply OrderedDict_items, sorted_reverse_NoDup_pks.
  rewrite Forall_forall in Hin. exact (Hin _ Hkv).
Qed.

Lemma sorts_eq (d : Digest) :
  well_keyed d -> sort_rule_groups (sort_group_contents d) = sorted_digest d.
Proof.
  intros Hd. rewrite sort_group_contents_eq by trivial.
  unfold sort_rule_groups, sorted_digest.
  apply OrderedDict_items, sorted_reverse_NoDup_pks.
  unfold pks. rewrite List.map_map. simpl. apply Hd.
Qed.

Lemma sorted_digest_In (d : Digest) (rule : Rule.t)
    (by_group : odict Group.t (list (option (Record_.t Rule.t)))) :
  In (rule, by_group) (sorted_digest d)
  <-> exists by_group0,
        In (rule, by_group0) d
        /\ by_group
           = sorted_reverse tuple_ltb
               (fun x => (Group.event_count (fst x), Group.user_count (fst x)))
               by_group0.
Proof.
  unfold sorted_digest. rewrite sorted_reverse_In, in_map_iff. split.
  - intros ([rule0 by_group0] & [= <- <-] & Hin). eauto.
  - intros (by_group0 & Hin & ->). now exists (rule, by_group0).
Qed.

Lemma sorted_digest_well_keyed (d : Digest) :
  well_keyed d -> well_keyed (sorted_digest d).
Proof.
  intros [Hnd Hin]. split.
  - apply sorted_reverse_NoDup_pks. unfold pks. now rewrite List.map_map.
  - apply Forall_forall. intros [rule by_group] Hkv.
    apply sorted_digest_In in Hkv as (by_group0 & Hkv & ->). simpl.
    apply sorted_reverse_NoDup_pks.
    rewrite Forall_forall in Hin. exact (Hin _ Hkv).
Qed.

Section DigestForall.
Variables (Q : Group.t -> Prop) (R : option (Record_.t Rule.t) -> Prop).

Lemma insert_record_Forall (d : Digest) (g : Group.t)
    (r : Record_.t Rule.t) :
  Q g -> R (Some r) ->
  digest_Forall Q R d -> digest_Forall Q R (insert_record d g r).
Proof.
  intros Hg Hr. unfold insert_record.
  generalize (Notification.rules (Record_.value r)). intros rules. revert d.
  induction rules as [|rule rules IH]; simpl; intros d Hd; trivial.
  apply IH. clear IH.
  set (P := fun (_ : Rule.t)
                (by_group : odict Group.t (list (option (Record_.t Rule.t)))) =>
              by_group <> []
              /\ Forall (fun gl => (snd gl <> [] /\ Q (fst gl)
                                    /\ Forall R (snd gl))) by_group).
  assert (Hupd : forall by_group,
             Forall (fun gl => (snd gl <> [] /\ Q (fst gl) /\ Forall R (snd gl)))
               by_group ->
             P rule (defaultdict_update [] by_group g
                       (fun records => records ++ [Some r]))).
  { intros by_group Hall. split.
    - now destruct by_group as [|[g' l] by_group]; simpl;
        [|destruct (pk g' =? pk g)].
    - apply (defaultdict_update_Forall
               (fun g' l => l <> [] /\ Q g' /\ Forall R l)); trivial.
      + simpl. repeat split; trivial; [discriminate|]. now constructor.
      + intros g' l _ (Hne & Hq & Hall'). repeat split; trivial.
        * now destruct l.
        * apply Forall_app. split; trivial. now constructor. }
  assert (HP : Forall (fun kv => P (fst kv) (snd kv))
                 (defaultdict_update [] d rule (fun by_group =>
                    defaultdict_update [] by_group g
                      (fun records => records ++ [Some r])))).
  { apply defaultdict_update_Forall.
    - apply Hupd. constructor.
    - intros rule' by_group _ [_ Hall]. now apply Hupd.
    - apply Forall_forall. intros [rule' by_group] Hin.
      destruct (Hd _ _ Hin) as [Hne Hall]. split; trivial.
      apply Forall_forall. intros [g' l] Hin'. simpl.
      destruct (Hall _ _ Hin') as (? & ? & ?).
      repeat split; trivial. now apply Forall_forall. }
  intros rule' by_group Hin.
  rewrite Forall_forall in HP. destruct (HP _ Hin) as [Hne Hall].
  split; trivial. intros g' l Hin'.
  rewrite Forall_forall in Hall. destruct (Hall _ Hin') as (? & ? & Hl).
  repeat split; trivial. now apply Forall_forall.
Qed.

Lemma grouped_Forall (survs : list (Group.t * Record_.t Rule.t)) :
  (forall g r, In (g, r) survs -> Q g /\ R (Some r)) ->
  digest_Forall Q R (grouped survs).
Proof.
  unfold grouped.
  enough (Hgen : forall d,
            (forall g r, In (g, r) survs -> Q g /\ R (Some r)) ->
            digest_Forall Q R d ->
            digest_Forall Q R (fold_left (fun groups gr =>
              insert_record groups (fst gr) (snd gr)) survs d)).
  { intros Hs. apply Hgen; trivial. now intros rule by_group []. }
  induction survs as [|[g r] survs IH]; simpl; intros d Hs Hd; trivial.
  apply IH; [intros; apply Hs; now right|].
  destruct (Hs g r (or_introl eq_refl)). now apply insert_record_Forall.
Qed.

Lemma sorted_digest_Forall (d : Digest) :
  digest_Forall Q R d -> digest_Forall Q R (sorted_digest d).
Proof.
  intros Hd rule by_group Hin.
  apply sorted_digest_In in Hin as (by_group0 & Hin & ->).
  destruct (Hd _ _ Hin) as [Hne Hall]. split.
  - intros E. apply Hne.
    apply Permutation_nil. rewrite <- E.
    apply sorted_reverse_Permutation.
  - intros g l Hin'. apply sorted_reverse_In in Hin'. auto.
Qed.
End DigestForall.

(** ** The digest [build_digest] returns *)

Lemma somes_In {A} (l : list (option A)) (x : A) :
  In x (somes l) <-> In (Some x) l.
Proof.
  induction l as [|[y|] l IH]; simpl; [tauto| |].
  - rewrite IH. split; intros [E|Hin]; auto; left; congruence.
  - rewrite IH. split; [auto|]. now intros [|].
Qed.

Section DigestFacts.
Context `{Externals}.

Lemma digest_pipeline_sorted (state : Attached.t)
    (records : list (Record_.t Z)) (st : Store) :
  Pipeline.call (digest_pipeline state) records st
  = Ok (sorted_digest (grouped (survivors state st records)),
        attach_events (Attached.groups state) records st).
Proof.
  rewrite digest_pipeline_run. now rewrite sorts_eq by apply grouped_well_keyed.
Qed.

(** C3: in the mapping [build_digest] returns no list of records is
    empty, every group that is a key reads UNRESOLVED, and so does the
    group attached to the event of every listed record. *)
Theorem digest_groups_unresolved (project : Project.t)
    (records : list (Record_.t Z)) (state : option State.t)
    (st st' : Store) (digest : Digest) :
  build_digest project records state st = Ok (Some digest, st') ->
  forall rule by_group,
    In (rule, by_group) digest ->
    by_group <> []
    /\ forall group listed,
         In (group, listed) by_group ->
         listed <> []
         /\ Group_get_status group = UNRESOLVED
         /\ forall record,
              In record listed ->
              exists r g,
                record = Some r
                /\ Event.group (st' (Notification.event (Record_.value r)))
                   = Some g
                /\ Group_get_status g = UNRESOLVED.
Proof.
  intros Hbuild.
  apply build_digest_inv in Hbuild as [attached Hcall].
  rewrite digest_pipeline_sorted in Hcall. injection Hcall as <- <-.
  apply (sorted_digest_Forall
           (fun group => Group_get_status group = UNRESOLVED)
           (fun record =>
              exists r g,
                record = Some r
                /\ Event.group
                     (attach_events (Attached.groups attached) records st
                        (Notification.event (Record_.value r))) = Some g
                /\ Group_get_status g = UNRESOLVED)).
  apply grouped_Forall. intros g r Hin.
  apply survivors_In in Hin as (record & Hin & Hg & Hs & ->).
  split; trivial. exists (rewritten (Attached.rules attached) record), g.
  repeat split; trivial. now apply attach_events_group.
Qed.

(** C4: a record whose group id has no entry in [groups] rewrites to
    [None], without an error, and is in no list of the digest; a record
    whose group resolves is kept, whatever its rule ids, with exactly the
    rules its ids resolve to; the pipeline raises nothing; a kept record
    without rules leaves the groups of [group_records] as they are. *)
Theorem unresolved_records_are_dropped (state : Attached.t) :
  (forall record st,
     resolved_group (Attached.groups state) st record = None ->
     rewrite_record record (Attached.project state) (Attached.groups state)
       (Attached.rules state) st = Ok (None, st))
  /\ (forall record st g,
        resolved_group (Attached.groups state) st record = Some g ->
        let event := Notification.event (Record_.value record) in
        let kept := rewritten (Attached.rules state) record in
        rewrite_record record (Attached.project state)
          (Attached.groups state) (Attached.rules state) st
        = Ok (Some kept, Store_set st event (Event.set_group (st event) g))
        /\ bool_ (Some kept) = true
        /\ forall rule,
             In rule (Notification.rules (Record_.value kept))
             <-> exists id,
                   In id (Notification.rules (Record_.value record))
                   /\ dict_get (Attached.rules state) id = Some rule)
  /\ (forall records st,
        exists digest st',
          Pipeline.call (digest_pipeline state) records st = Ok (digest, st')
          /\ forall rule by_group group listed kept,
               In (rule, by_group) digest ->
               In (group, listed) by_group ->
               In kept listed ->
               exists record g,
                 In record records
                 /\ resolved_group (Attached.groups state) st record = Some g
                 /\ kept = Some (rewritten (Attached.rules state) record))
  /\ (forall groups r st g,
        Event.group (st (Notification.event (Record_.value r))) = Some g ->
        Notification.rules (Record_.value r) = [] ->
        group_records groups (Some r) st = Ok (groups, st)).
Proof.
  split; [|split; [|split]].
  - intros record st E. now rewrite rewrite_record_run, E.
  - intros record st g E event kept. rewrite rewrite_record_run, E.
    split; [reflexivity|]. split; [reflexivity|].
    intros rule. subst kept. simpl. rewrite somes_In, in_map_iff.
    split; intros (id & ? & ?); eauto.
  - intros records st. do 2 eexists.
    split; [apply digest_pipeline_sorted|].
    intros rule by_group group listed kept Hr Hg Hk.
    assert (Hall : digest_Forall (fun _ => True)
              (fun kept =>
                 exists record g,
                   In record records
                   /\ resolved_group (Attached.groups state) st record = Some g
                   /\ kept = Some (rewritten (Attached.rules state) record))
              (sorted_digest (grouped (survivors state st records)))).
    { apply sorted_digest_Forall, grouped_Forall. intros g r Hin.
      apply survivors_In in Hin as (record & Hin & Hgr & _ & ->).
      split; eauto. }
    destruct (Hall _ _ Hr) as [_ Hin]. destruct (Hin _ _ Hg) as (_ & _ & Hl).
    auto.
  - intros groups r st g Hg Hrules.
    rewrite (group_records_run st groups r g Hg).
    unfold insert_record. now rewrite Hrules.
Qed.

(** C2: in the mapping [build_digest] returns, a rule with more groups
    stands before a rule with fewer, and under every rule a group whose
    pair of event count and user count is greater in lexicographic order
    stands before one whose pair is smaller; the keys are distinct at both
    levels. *)
Theorem digest_is_sorted (project : Project.t)
    (records : list (Record_.t Z)) (state : option State.t)
    (st st' : Store) (digest : Digest) :
  build_digest project records state st = Ok (Some digest, st') ->
  (forall i j rule1 groups1 rule2 groups2,
     nth_error digest i = Some (rule1, groups1) ->
     nth_error digest j = Some (rule2, groups2) ->
     (List.length groups1 > List.length groups2)%nat ->
     (i < j)%nat)
  /\ (forall rule by_group,
        In (rule, by_group) digest ->
        forall i j group1 listed1 group2 listed2,
          nth_error by_group i = Some (group1, listed1) ->
          nth_error by_group j = Some (group2, listed2) ->
          Group.event_count group2 < Group.event_count group1
          \/ (Group.event_count group2 = Group.event_count group1
              /\ Group.user_count group2 < Group.user_count group1) ->
          (i < j)%nat)
  /\ well_keyed digest.
Proof.
  intros Hbuild.
  apply build_digest_inv in Hbuild as [attached Hcall].
  rewrite digest_pipeline_sorted in Hcall. injection Hcall as <- <-.
  split; [|split].
  - intros i j rule1 groups1 rule2 groups2 Hi Hj Hlen.
    apply (descending_nth_error len_ltb (fun x => List.length (snd x))
             len_ltb_asym _ i j _ _
             (sorted_reverse_descending _ _ len_ltb_asym len_ltb_negtrans _)
             Hi Hj).
    simpl. apply Nat.ltb_lt. lia.
  - intros rule by_group Hin i j group1 listed1 group2 listed2 Hi Hj Hlt.
    apply sorted_digest_In in Hin as (by_group0 & _ & ->).
    apply (descending_nth_error tuple_ltb
             (fun x => (Group.event_count (fst x), Group.user_count (fst x)))
             tuple_ltb_asym _ i j _ _
             (sorted_reverse_descending _ _ tuple_ltb_asym tuple_ltb_negtrans _)
             Hi Hj).
    now apply tuple_ltb_spec.
  - apply sorted_digest_well_keyed, grouped_well_keyed.
Qed.
End DigestFacts.

(** ** Running the pipeline again *)

Lemma set_group_attached (e : Event.t) (g : Group.t) :
  Event.group e = Some g -> Event.set_group e g = e.
Proof. destruct e. simpl. now intros ->. Qed.

Section RunAgain.
Variable groups : dict Group.t.

(** The only write of the map stage is the [group] attribute of an event
    whose group id resolves. *)
Lemma attach_events_cases (records : list (Record_.t Z)) (st : Store)
    (event : EventRef) :
  attach_events groups records st event = st event
  \/ exists g,
       dict_get groups (Event.group_id (st event)) = Some g
       /\ attach_events groups records st event
          = Event.set_group (st event) g.
Proof.
  revert st. induction records as [|record records IH]; intros st;
    [now left|].
  simpl.
  destruct (resolved_group groups st record) as [g|] eqn:E; [|apply IH].
  set (st' := Store_set st _ _).
  assert (Hid : Event.group_id (st' event) = Event.group_id (st event))
    by apply Store_set_group_id.
  assert (Hst' : st' event = st event
                 \/ (st' event = Event.set_group (st event) g
                     /\ dict_get groups (Event.group_id (st event)) = Some g)).
  { subst st'. unfold Store_set.
    destruct (Nat.eqb_spec event (Notification.event (Record_.value record)))
      as [->|]; auto. }
  destruct (IH st') as [-> | (g' & Hg' & ->)].
  - destruct Hst' as [->|[-> ?]]; eauto.
  - right. exists g'. rewrite <- Hid. split; trivial.
    now destruct Hst' as [->|[-> ?]].
Qed.

(** Once every resolving record of a batch has its group attached, the
    map stage writes what is there already. *)
Lemma attach_events_again (records : list (Record_.t Z)) (st : Store) :
  (forall record g,
     In record records ->
     resolved_group groups st record = Some g ->
     Event.group (st (Notification.event (Record_.value record))) = Some g) ->
  forall event, attach_events groups records st event = st event.
Proof.
  revert st. induction records as [|record records IH]; intros st Hst event;
    trivial.
  simpl.
  destruct (resolved_group groups st record) as [g|] eqn:E.
  - set (st' := Store_set st _ _).
    assert (Hst' : forall r, st' r = st r).
    { intros r. subst st'. unfold Store_set.
      destruct (Nat.eqb_spec r (Notification.event (Record_.value record)))
        as [->|]; trivial.
      apply set_group_attached, Hst; auto. now left. }
    rewrite IH; trivial.
    intros record' g' Hin Hg'. rewrite Hst'. apply Hst; [now right|].
    unfold resolved_group in *. now rewrite <- Hst'.
  - apply IH. intros; apply Hst; auto. now right.
Qed.
End RunAgain.

Section Idempotence.
Context `{Externals}.

Lemma survivors_attach_events (state : Attached.t)
    (records batch : list (Record_.t Z)) (st : Store) :
  survivors state (attach_events (Attached.groups state) batch st) records
  = survivors state st records.
Proof.
  unfold survivors. apply flat_map_ext. intros record.
  now rewrite resolved_group_attach_events.
Qed.

(** C8: the pipeline run a second time, on the store the first run left,
    returns the same digest and leaves every event as it was; the first
    run itself changes nothing but the [group] attribute of events whose
    group id resolves. *)
Theorem pipeline_idempotent (state : Attached.t)
    (records : list (Record_.t Z)) (st st1 : Store) (digest : Digest) :
  Pipeline.call (digest_pipeline state) records st = Ok (digest, st1) ->
  (exists st2,
     Pipeline.call (digest_pipeline state) records st1 = Ok (digest, st2)
     /\ forall event, st2 event = st1 event)
  /\ forall event,
       st1 event = st event
       \/ exists g,
            dict_get (Attached.groups state) (Event.group_id (st event))
            = Some g
            /\ st1 event = Event.set_group (st event) g.
Proof.
  rewrite digest_pipeline_sorted. intros [= <- <-]. split.
  - eexists. split.
    + rewrite digest_pipeline_sorted, survivors_attach_events. reflexivity.
    + apply attach_events_again. intros record g Hin Hg.
      rewrite resolved_group_attach_events in Hg.
      now apply attach_events_group.
  - apply attach_events_cases.
Qed.
End Idempotence.

(** ** The lists of a digest *)

Section LookupFacts.
Context {K V : Type} `{Model K}.

Lemma odict_get_pk (d : odict K V) (k k' : K) :
  pk k = pk k' -> odict_get d k = odict_get d k'.
Proof.
  intros E. induction d as [|[k0 v] d IH]; simpl; trivial.
  now rewrite E, IH.
Qed.

Lemma odict_get_Permutation (d d' : odict K V) (k : K) :
  NoDup (pks d) -> Permutation d d' -> odict_get d k = odict_get d' k.
Proof.
  intros Hnd Hperm.
  assert (Hnd' : NoDup (pks d')).
  { apply (Permutation_NoDup (l := pks d)); trivial.
    unfold pks. now apply Permutation_map. }
  destruct (odict_get d k) as [v|] eqn:E.
  - apply odict_get_In in E as (k' & Hpk & Hin).
    rewrite <- (odict_get_pk d' k' k Hpk).
    symmetry. apply In_odict_get; trivial.
    now apply (Permutation_in _ Hperm).
  - symmetry. apply odict_get_None. apply odict_get_None in E.
    intros Hin. apply E.
    apply (Permutation_in (l := pks d')); trivial.
    unfold pks. apply Permutation_map. now symmetry.
Qed.

Lemma odict_get_map (g : V -> V) (d : odict K V) (k : K) :
  odict_get (List.map (fun kv => (fst kv, g (snd kv))) d) k
  = option_map g (odict_get d k).
Proof.
  induction d as [|[k0 v] d IH]; simpl; trivial.
  now destruct (pk k0 =? pk k).
Qed.
End LookupFacts.

Lemma leaf_pk (d : Digest) (rule rule' : Rule.t) (group group' : Group.t) :
  pk rule = pk rule' -> pk group = pk group' ->
  leaf d rule group = leaf d rule' group'.
Proof.
  intros Er Eg. unfold leaf. rewrite (odict_get_pk d rule rule' Er).
  destruct (odict_get d rule'); trivial.
  now rewrite (odict_get_pk _ group group' Eg).
Qed.

Lemma leaf_In (d : Digest) (rule : Rule.t)
    (by_group : odict Group.t (list (option (Record_.t Rule.t))))
    (group : Group.t) (listed : list (option (Record_.t Rule.t))) :
  well_keyed d ->
  In (rule, by_group) d -> In (group, listed) by_group ->
  leaf d rule group = listed.
Proof.
  intros [Hnd Hall] Hr Hg. unfold leaf.
  rewrite (In_odict_get d rule by_group Hnd Hr).
  rewrite Forall_forall in Hall.
  now rewrite (In_odict_get by_group group listed (Hall _ Hr) Hg).
Qed.

Lemma leaf_nonempty (d : Digest) (rule : Rule.t) (group : Group.t) :
  leaf d rule group <> [] ->
  exists rule' by_group group',
    pk rule' = pk rule /\ pk group' = pk group
    /\ In (rule', by_group) d
    /\ In (group', leaf d rule group) by_group.
Proof.
  unfold leaf. intros Hne.
  destruct (odict_get d rule) as [by_group|] eqn:Er; [|congruence].
  destruct (odict_get by_group group) as [listed|] eqn:Eg; [|congruence].
  apply odict_get_In in Er as (rule' & ? & ?).
  apply odict_get_In in Eg as (group' & ? & ?).
  exists rule', by_group, group'. auto.
Qed.

Lemma leaf_sorted_digest (d : Digest) (rule : Rule.t) (group : Group.t) :
  well_keyed d -> leaf (sorted_digest d) rule group = leaf d rule group.
Proof.
  intros [Hnd Hall]. unfold leaf, sorted_digest.
  match goal with |- context [List.map ?G d] => set (sorted := List.map G d) end.
  assert (Hsorted : NoDup (pks sorted))
    by (unfold sorted, pks; rewrite List.map_map; exact Hnd).
  rewrite <- (odict_get_Permutation sorted _ rule Hsorted
                (Permutation_sym (sorted_reverse_Permutation _ _ _))).
  unfold sorted. rewrite odict_get_map.
  unfold Digest, odict in *.
  destruct (odict_get d rule) as [by_group|] eqn:Er; cbn [option_map snd];
    trivial.
  apply odict_get_In in Er as (rule' & _ & Hin).
  rewrite Forall_forall in Hall.
  now rewrite <- (odict_get_Permutation by_group _ group (Hall _ Hin)
                    (Permutation_sym (sorted_reverse_Permutation _ _ _))).
Qed.

Lemma leaf_defaultdict_update (d : Digest) (rule rule0 : Rule.t)
    (g g0 : Group.t) (r : Record_.t Rule.t) :
  leaf (defaultdict_update [] d rule (fun by_group =>
          defaultdict_update [] by_group g (fun records =>
            records ++ [Some r]))) rule0 g0
  = leaf d rule0 g0
    ++ (if (pk rule =? pk rule0) && (pk g =? pk g0) then [Some r] else []).
Proof.
  unfold leaf. rewrite odict_get_defaultdict_update.
  destruct (Z.eqb_spec (pk rule) (pk rule0)) as [Er|]; cbn [andb].
  - rewrite odict_get_defaultdict_update, (odict_get_pk d rule rule0 Er).
    destruct (Z.eqb_spec (pk g) (pk g0)) as [Eg|].
    + destruct (odict_get d rule0) as [by_group|]; trivial.
      now rewrite (odict_get_pk by_group g g0 Eg).
    + rewrite app_nil_r. now destruct (odict_get d rule0).
  - now rewrite app_nil_r.
Qed.

Lemma leaf_insert_record (d : Digest) (g : Group.t) (r : Record_.t Rule.t)
    (rule0 : Rule.t) (g0 : Group.t) :
  leaf (insert_record d g r) rule0 g0
  = leaf d rule0 g0 ++ appended rule0 g0 (g, r).
Proof.
  unfold insert_record, appended. simpl.
  generalize (Notification.rules (Record_.value r)). intros rules. revert d.
  induction rules as [|rule rules IH]; simpl; intros d.
  - destruct (pk g =? pk g0); now rewrite app_nil_r.
  - rewrite IH, leaf_defaultdict_update, <- app_assoc. f_equal.
    destruct (pk g =? pk g0); [|now rewrite andb_false_r].
    rewrite andb_true_r. now destruct (pk rule =? pk rule0).
Qed.

Lemma leaf_grouped (survs : list (Group.t * Record_.t Rule.t))
    (rule : Rule.t) (group : Group.t) :
  leaf (grouped survs) rule group = flat_map (appended rule group) survs.
Proof.
  unfold grouped.
  enough (Hgen : forall d,
            leaf (fold_left (fun groups gr =>
                    insert_record groups (fst gr) (snd gr)) survs d) rule group
            = leaf d rule group ++ flat_map (appended rule group) survs)
    by apply (Hgen []).
  induction survs as [|[g r] survs IH]; simpl; intros d.
  - now rewrite app_nil_r.
  - now rewrite IH, leaf_insert_record, <- app_assoc.
Qed.

(** Without a repeated rule in any rule list, a list of the digest is a
    filter of the survivors. *)
Lemma flat_map_appended (survs : list (Group.t * Record_.t Rule.t))
    (rule : Rule.t) (group : Group.t) :
  (forall g r,
     In (g, r) survs ->
     NoDup (List.map pk (Notification.rules (Record_.value r)))) ->
  flat_map (appended rule group) survs
  = List.map (fun gr => Some (snd gr))
      (List.filter (listed_under rule group) survs).
Proof.
  induction survs as [|[g r] survs IH]; simpl; intros Hnd; trivial.
  rewrite IH by (intros; eapply Hnd; eauto).
  specialize (Hnd g r (or_introl eq_refl)).
  unfold appended at 1, listed_under at 2. simpl.
  destruct (pk g =? pk group); simpl; trivial.
  induction (Notification.rules (Record_.value r)) as [|rule' rules IHr];
    simpl; trivial.
  simpl in Hnd. inversion_clear Hnd as [|? ? Hout Hnd'].
  destruct (Z.eqb_spec (pk rule') (pk rule)) as [E|]; simpl; [|auto].
  assert (Hnone : List.filter (fun rule'0 => pk rule'0 =? pk rule) rules = []).
  { clear IHr Hnd'. induction rules as [|rule'' rules IHr]; simpl; trivial.
    simpl in Hout.
    destruct (Z.eqb_spec (pk rule'') (pk rule)); [exfalso; apply Hout; left; congruence|].
    apply IHr. tauto. }
  now rewrite Hnone.
Qed.

(** ** Counting the lists a record is in *)

Lemma filter_flat_map_length {A B} (P : B -> bool) (Q : A -> bool)
    (F : A -> list B) (l : list A) :
  (forall x, In x l ->
     List.length (List.filter P (F x)) = if Q x then 1%nat else 0%nat) ->
  List.length (List.filter P (flat_map F l)) = List.length (List.filter Q l).
Proof.
  induction l as [|x l IH]; simpl; intros HF; trivial.
  rewrite filter_app, length_app, IH by auto.
  rewrite (HF x) by auto. now destruct (Q x).
Qed.

Lemma filter_eqb_NoDup (z : Z) (l : list Z) :
  NoDup l -> In z l -> List.length (List.filter (Z.eqb z) l) = 1%nat.
Proof.
  induction l as [|y l IH]; simpl; intros Hnd Hin; [contradiction|].
  inversion_clear Hnd as [|? ? Hout Hnd'].
  destruct (Z.eqb_spec z y) as [<-|NE]; simpl.
  - f_equal. apply length_zero_iff_nil.
    clear IH Hin Hnd'. induction l as [|y l IH]; simpl; trivial.
    simpl in Hout. destruct (Z.eqb_spec z y) as [->|]; [tauto|].
    apply IH. tauto.
  - apply IH; trivial. destruct Hin; congruence.
Qed.

Lemma filter_mem_length (l m : list Z) :
  NoDup l -> NoDup m -> incl m l ->
  List.length (List.filter (fun z => existsb (Z.eqb z) m) l) = List.length m.
Proof.
  intros Hl Hm Hincl. apply Permutation_length, NoDup_Permutation; trivial.
  - now apply NoDup_filter.
  - intros z. rewrite filter_In, existsb_exists. split.
    + intros (_ & y & Hy & E). apply Z.eqb_eq in E. now subst.
    + intros Hz. split; [auto|]. exists z. split; trivial. apply Z.eqb_refl.
Qed.

Lemma In_pk_unique {K V} `{Model K} (d : odict K V) (k1 k2 : K) (v1 v2 : V) :
  NoDup (pks d) -> In (k1, v1) d -> In (k2, v2) d -> pk k1 = pk k2 ->
  (k1, v1) = (k2, v2).
Proof.
  induction d as [|[k v] d IH]; simpl; [contradiction|].
  intros Hnd H1 H2 E. inversion_clear Hnd as [|? ? Hout Hnd'].
  assert (Hpks : forall k' v', In (k', v') d -> In (pk k') (pks d))
    by (intros k' v' Hin; exact (in_map (fun kv => pk (fst kv)) _ _ Hin)).
  destruct H1 as [[= -> ->]|H1], H2 as [[= -> ->]|H2]; auto.
  - exfalso. apply Hout. rewrite E. eauto.
  - exfalso. apply Hout. rewrite <- E. eauto.
Qed.

Section CountKeys.
Context {K V : Type} `{Model K}.

Lemma pks_filter (p : Z -> bool) (d : odict K V) :
  pks (List.filter (fun kv => p (pk (fst kv))) d) = List.filter p (pks d).
Proof.
  unfold pks. induction d as [|[k v] d IH]; simpl; trivial.
  destruct (p (pk k)); simpl; now rewrite IH.
Qed.

Lemma filter_key_length (d : odict K V) (k : K) :
  NoDup (pks d) -> In (pk k) (pks d) ->
  List.length (List.filter (fun kv => pk k =? pk (fst kv)) d) = 1%nat.
Proof.
  intros Hnd Hin.
  rewrite <- (filter_eqb_NoDup (pk k) (pks d) Hnd Hin).
  rewrite <- (pks_filter (Z.eqb (pk k))). unfold pks.
  now rewrite length_map.
Qed.

Lemma filter_keys_length (d : odict K V) (ks : list K) :
  NoDup (pks d) -> NoDup (List.map pk ks) -> incl (List.map pk ks) (pks d) ->
  List.length
    (List.filter (fun kv => existsb (fun k => pk k =? pk (fst kv)) ks) d)
  = List.length ks.
Proof.
  intros Hd Hks Hincl.
  rewrite <- (length_map pk ks).
  rewrite <- (filter_mem_length (pks d) (List.map pk ks) Hd Hks Hincl).
  rewrite <- (pks_filter (fun z => existsb (Z.eqb z) (List.map pk ks))).
  unfold pks. rewrite length_map. f_equal.
  apply filter_ext. intros [k v]. simpl.
  induction ks as [|k' ks IH]; simpl; trivial.
  simpl in Hks. inversion_clear Hks as [|? ? _ Hks'].
  rewrite IH, (Z.eqb_sym (pk k')); trivial.
  intros z Hz. apply Hincl. now right.
Qed.
End CountKeys.

Section ListsOfARecord.
Context `{Externals}.

(** C9, as amended: every list of the digest is the surviving records of
    the batch, in the order of the batch, each taken once for every entry
    of its rule list that is the rule of the list, provided its group is
    the group of the list; a surviving record is in a list under each of
    its rules; and a surviving record whose rule list names no rule twice
    is in each list once and in as many lists as it has rules. *)
Theorem records_listed_in_order (state : Attached.t)
    (records : list (Record_.t Z)) (st st' : Store) (digest : Digest) :
  Pipeline.call (digest_pipeline state) records st = Ok (digest, st') ->
  let survs := survivors state st records in
  (forall rule by_group group listed,
     In (rule, by_group) digest -> In (group, listed) by_group ->
     listed = flat_map (appended rule group) survs)
  /\ (forall g r rule,
        In (g, r) survs ->
        In rule (Notification.rules (Record_.value r)) ->
        exists rule' by_group g' listed,
          pk rule' = pk rule /\ pk g' = pk g
          /\ In (rule', by_group) digest /\ In (g', listed) by_group
          /\ In (Some r) listed)
  /\ (forall g r,
        In (g, r) survs ->
        NoDup (List.map pk (Notification.rules (Record_.value r))) ->
        (forall rule group,
           appended rule group (g, r)
           = if listed_under rule group (g, r) then [Some r] else [])
        /\ List.length
             (List.filter
                (fun l => listed_under (fst (fst l)) (snd (fst l)) (g, r))
                (leaves digest))
           = List.length (Notification.rules (Record_.value r)))
  /\ ((forall g r,
         In (g, r) survs ->
         NoDup (List.map pk (Notification.rules (Record_.value r)))) ->
      forall rule by_group group listed,
        In (rule, by_group) digest -> In (group, listed) by_group ->
        listed = List.map (fun gr => Some (snd gr))
                   (List.filter (listed_under rule group) survs))
  /\ well_keyed digest.
Proof.
  rewrite digest_pipeline_sorted. intros [= <- _] survs.
  set (digest := sorted_digest (grouped survs)).
  assert (Hwk : well_keyed digest)
    by apply sorted_digest_well_keyed, grouped_well_keyed.
  assert (Hleaf : forall rule group,
             leaf digest rule group = flat_map (appended rule group) survs).
  { intros rule group. unfold digest.
    rewrite leaf_sorted_digest by apply grouped_well_keyed.
    apply leaf_grouped. }
  assert (Hlisted : forall rule by_group group listed,
             In (rule, by_group) digest -> In (group, listed) by_group ->
             listed = flat_map (appended rule group) survs).
  { intros rule by_group group listed Hr Hg.
    rewrite <- Hleaf. symmetry. now apply (leaf_In digest rule by_group). }
  assert (Hex : forall g r rule,
             In (g, r) survs ->
             In rule (Notification.rules (Record_.value r)) ->
             exists rule' by_group g' listed,
               pk rule' = pk rule /\ pk g' = pk g
               /\ In (rule', by_group) digest /\ In (g', listed) by_group
               /\ In (Some r) listed).
  { intros g r rule Hin Hrule.
    assert (Hr : In (Some r) (leaf digest rule g)).
    { rewrite Hleaf. apply in_flat_map. exists (g, r). split; trivial.
      unfold appended. simpl. rewrite Z.eqb_refl.
      destruct (List.filter _ _) as [|rule' l] eqn:E.
      - exfalso. apply (in_nil (a := rule)). rewrite <- E.
        apply filter_In. split; trivial. apply Z.eqb_refl.
      - now left. }
    destruct (leaf_nonempty digest rule g) as (rule' & by_group & g' & ? & ? & ? & ?).
    { intros E. now rewrite E in Hr. }
    exists rule', by_group, g', (leaf digest rule g). auto. }
  split; [exact Hlisted|]. split; [exact Hex|].
  split; [|split; [|exact Hwk]].
  - intros g r Hin Hnd. split.
    + intros rule group.
      rewrite <- (app_nil_r (appended rule group (g, r))).
      change (flat_map (appended rule group) [(g, r)]
              = if listed_under rule group (g, r) then [Some r] else []).
      rewrite flat_map_appended.
      * simpl. now destruct (listed_under rule group (g, r)).
      * now intros g0 r0 [[= <- <-]|[]].
    + unfold leaves.
      rewrite (filter_flat_map_length _
                 (fun kv => existsb (fun rule => pk rule =? pk (fst kv))
                              (Notification.rules (Record_.value r)))).
      * apply filter_keys_length; [apply Hwk|trivial|].
        intros z Hz. apply in_map_iff in Hz as (rule & <- & Hrule).
        destruct (Hex g r rule Hin Hrule)
          as (rule' & by_group & _ & _ & <- & _ & Hd & _).
        exact (in_map (fun kv => pk (fst kv)) _ _ Hd).
      * intros [rule by_group] Hd. unfold listed_under.
        rewrite filter_map_swap, length_map. cbn [fst snd].
        destruct (existsb _ _) eqn:Ematch.
        -- apply existsb_exists in Ematch as (rule0 & Hrule0 & E0).
           apply Z.eqb_eq in E0.
           destruct (Hex g r rule0 Hin Hrule0)
             as (rule' & by_group' & g' & listed & Er & Eg & Hd' & Hg' & _).
           assert (Esame : (rule', by_group') = (rule, by_group)).
           { apply (In_pk_unique digest); trivial; [apply Hwk|congruence]. }
           injection Esame as -> ->.
           destruct Hwk as [_ Hinner]. rewrite Forall_forall in Hinner.
           specialize (Hinner _ Hd). cbn [snd] in Hinner.
           rewrite <- (filter_key_length by_group g Hinner).
           ++ f_equal. apply filter_ext. intros [g0 l]. cbn [fst snd].
              apply andb_true_r.
           ++ rewrite <- Eg.
              exact (in_map (fun gl => pk (fst gl)) _ _ Hg').
        -- apply length_zero_iff_nil.
           clear. induction by_group as [|[g0 l] bg IHb]; simpl; trivial.
           now rewrite andb_false_r.
  - intros Hnd rule by_group group listed Hr Hg.
    rewrite (Hlisted rule by_group group listed Hr Hg).
    now apply flat_map_appended.
Qed.
End ListsOfARecord.

(** ** The worked batch *)

Section WorkedBatch.
#[local] Existing Instance Sample.externals.

Ltac each_entry :=
  let id := fresh "id" in
  let x := fresh "x" in
  let Hin := fresh "Hin" in
  intros id x Hin; simpl in Hin;
  repeat (destruct Hin as [Hin|Hin];
          [injection Hin as <- <-; try reflexivity|]);
  try contradiction.

Lemma targeted_key_round_trip_witness :
  split_key_for_targeted_action Sample.Project_objects_get
    (unsplit_key_for_targeted_action Sample.project "Team" (Some 5))
  = Ok (MailAdapter_new, Sample.project, "Team"%string, 5)
  /\ split_key_for_targeted_action Sample.Project_objects_get
       (unsplit_key_for_targeted_action Sample.project "IssueOwners" None)
     = Ok (MailAdapter_new, Sample.project, "IssueOwners"%string, -1).
Proof.
  split.
  - apply (targeted_key_round_trip Sample.Project_objects_get Sample.project
             "Team" (Some 5)); reflexivity.
  - apply (targeted_key_round_trip Sample.Project_objects_get Sample.project
             "IssueOwners" None); reflexivity.
Defined.

(** A target type with a colon does not come back, although the project
    resolves: the key splits inside the target type.  Nor does a project
    that the object store does not hold. *)
Lemma targeted_key_with_colon_is_not_decoded :
  Sample.Project_objects_get (Py.str (Project.id Sample.project))
  = Ok Sample.project
  /\ unsplit_key_for_targeted_action Sample.project "a:b" (Some 5)
     = "targeted_mail:p:1:a:b:5"%string
  /\ split_key_for_targeted_action Sample.Project_objects_get
       (unsplit_key_for_targeted_action Sample.project "a:b" (Some 5))
     = Raise ValueError
  /\ split_key_for_targeted_action Sample.Project_objects_get
       (unsplit_key_for_targeted_action Sample.project "a:b" (Some 5))
     <> Ok (MailAdapter_new, Sample.project, "a:b"%string, 5)
  /\ split_key_for_targeted_action Sample.Project_objects_get
       (unsplit_key_for_targeted_action Sample.other_project "Team" (Some 5))
     = Raise DoesNotExist.
Proof.
  split; [reflexivity|]. split; [reflexivity|].
  split; [reflexivity|]. split; [discriminate|reflexivity].
Qed.

Lemma attach_state_ownership_witness :
  ((exists msg,
      attach_state Sample.project [(20, Sample.group 20 2 UNRESOLVED)]
        Sample.rules [] [] = Raise (AssertionError msg))
   /\ forall requested record records st,
        exists msg,
          build_digest requested (record :: records)
            (Some {| State.project := Sample.project;
                     State.groups := [(20, Sample.group 20 2 UNRESOLVED)];
                     State.rules := Sample.rules;
                     State.event_counts := [];
                     State.user_counts := [] |}) st
          = Raise (AssertionError msg))
  /\ (exists state,
        attach_state Sample.project Sample.groups Sample.rules
          Sample.event_counts Sample.user_counts = Ok state)
  /\ attach_state Sample.project Sample.groups Sample.rules
       Sample.event_counts Sample.user_counts = Ok Sample.attached
  /\ dict_keys (Attached.groups Sample.attached) = dict_keys Sample.groups
  /\ (forall id group,
        In (id, group) (Attached.groups Sample.attached) ->
        (~ In id (dict_keys Sample.event_counts) ->
         Group.event_count group = 0)
        /\ (~ In id (dict_keys Sample.user_counts) ->
            Group.user_count group = 0))
  /\ Attached.groups Sample.attached
     = List.map (fun kv =>
         (fst kv,
          {| Group.id := Group.id (snd kv);
             Group.project_id := Group.project_id (snd kv);
             Group.status := Group.status (snd kv);
             Group.project := Some Sample.project;
             Group.event_count :=
               dict_get_default Sample.event_counts (fst kv) 0;
             Group.user_count :=
               dict_get_default Sample.user_counts (fst kv) 0 |}))
         Sample.groups.
Proof.
  split.
  - apply (proj1 (attach_state_ownership Sample.project
                    [(20, Sample.group 20 2 UNRESOLVED)] Sample.rules [] [])).
    left. exists 20, (Sample.group 20 2 UNRESOLVED).
    split; [now left|discriminate].
  - destruct (proj2 (attach_state_ownership Sample.project Sample.groups
                       Sample.rules Sample.event_counts Sample.user_counts))
      as (_ & Hstate & Hreturns); [each_entry|each_entry|].
    split; [apply Hreturns; intros id Hin; simpl in *; intuition|].
    split; [reflexivity|].
    destruct (Hstate Sample.attached eq_refl) as (Hkeys & Hzero & Hexact).
    split; [exact Hkeys|]. split; [exact Hzero|].
    apply Hexact;
      repeat (constructor; [simpl; intuition discriminate|]); constructor.
Defined.

Lemma attach_state_count_without_group_witness :
  (forall state,
     attach_state Sample.project Sample.groups Sample.rules [(99, 4)] []
     <> Ok state)
  /\ exists id,
       attach_state Sample.project Sample.groups Sample.rules [(99, 4)] []
       = Raise (KeyError id)
       /\ In id (dict_keys [(99, 4)] ++ dict_keys (@nil (Z * Z)))
       /\ ~ In id (dict_keys Sample.groups).
Proof.
  destruct (attach_state_count_without_group Sample.project Sample.groups
              Sample.rules [(99, 4)] []) as [Hnever Hkey].
  - exists 99. split; [now left|]. simpl. intuition discriminate.
  - split; [exact Hnever|]. apply Hkey; each_entry.
Defined.

Lemma fetch_state_interval_witness :
  exists first rest init last state,
    Sample.records = first :: rest /\ Sample.records = init ++ [last]
    /\ fetch_state Sample.project Sample.records Sample.store
       = Ok (state, Sample.store)
    /\ State.event_counts state
       = tsdb_get_sums tsdb_models_group (dict_keys (State.groups state))
           (to_datetime (Record_.timestamp last))
           (to_datetime (Record_.timestamp first))
    /\ State.user_counts state
       = tsdb_get_distinct_counts_totals tsdb_models_users_affected_by_group
           (dict_keys (State.groups state))
           (to_datetime (Record_.timestamp last))
           (to_datetime (Record_.timestamp first)).
Proof.
  apply (fetch_state_interval Sample.project Sample.records Sample.store).
  discriminate.
Defined.

Lemma build_digest_None_iff_empty_witness :
  build_digest Sample.project [] None Sample.store = Ok (None, Sample.store)
  /\ (forall st',
        build_digest Sample.project Sample.records (Some Sample.state)
          Sample.store <> Ok (None, st'))
  /\ (exists digest st',
        build_digest Sample.project Sample.records (Some Sample.state)
          Sample.store = Ok (Some digest, st')).
Proof.
  split.
  - exact (proj1 (build_digest_None_iff_empty Sample.project [] None
                    Sample.store) eq_refl).
  - destruct (proj2 (build_digest_None_iff_empty Sample.project
                       Sample.records (Some Sample.state) Sample.store))
      as (Hnone & s & Hs & Hok & _); [discriminate|].
    split; [exact Hnone|].
    destruct Hs as [[= <-]|[[=] _]].
    apply (Hok Sample.attached). reflexivity.
Defined.

(** A batch of six records for which [build_digest] returns no mapping:
    the state holds a group of another project, or files a count under an
    id that is no group. *)
Lemma build_digest_raises_on_a_nonempty_batch :
  Sample.records <> []
  /\ build_digest Sample.project Sample.records
       (Some {| State.project := Sample.project;
                State.groups := [(20, Sample.group 20 2 UNRESOLVED)];
                State.rules := Sample.rules;
                State.event_counts := [];
                State.user_counts := [] |}) Sample.store
     = Raise (AssertionError "Group must belong to Project")
  /\ build_digest Sample.project Sample.records
       (Some {| State.project := Sample.project;
                State.groups := Sample.groups;
                State.rules := Sample.rules;
                State.event_counts := [(99, 4)];
                State.user_counts := [] |}) Sample.store
     = Raise (KeyError 99).
Proof.
  split; [discriminate|]. split; reflexivity.
Qed.

(** A batch whose only record belongs to a group that is gone gives the
    empty mapping, not [None]. *)
Example build_digest_empty_mapping :
  exists st',
    build_digest Sample.project [Sample.record "e" 4%nat [2] 60]
      (Some Sample.state) Sample.store = Ok (Some [], st').
Proof. eexists. vm_compute. reflexivity. Qed.

Lemma digest_groups_unresolved_witness :
  build_digest Sample.project Sample.records None Sample.store
  = Ok (Some Sample.digest, Sample.store')
  /\ forall rule by_group,
       In (rule, by_group) Sample.digest ->
       by_group <> []
       /\ forall group listed,
            In (group, listed) by_group ->
            listed <> []
            /\ Group_get_status group = UNRESOLVED
            /\ forall record,
                 In record listed ->
                 exists r g,
                   record = Some r
                   /\ Event.group
                        (Sample.store' (Notification.event (Record_.value r)))
                      = Some g
                   /\ Group_get_status g = UNRESOLVED.
Proof.
  assert (Hbuild : build_digest Sample.project Sample.records None Sample.store
                   = Ok (Some Sample.digest, Sample.store'))
    by (vm_compute; reflexivity).
  split; [exact Hbuild|].
  exact (digest_groups_unresolved Sample.project Sample.records None
           Sample.store Sample.store' Sample.digest Hbuild).
Defined.

Lemma digest_is_sorted_witness :
  (forall i j rule1 groups1 rule2 groups2,
     nth_error Sample.digest i = Some (rule1, groups1) ->
     nth_error Sample.digest j = Some (rule2, groups2) ->
     (List.length groups1 > List.length groups2)%nat ->
     (i < j)%nat)
  /\ (forall rule by_group,
        In (rule, by_group) Sample.digest ->
        forall i j group1 listed1 group2 listed2,
          nth_error by_group i = Some (group1, listed1) ->
          nth_error by_group j = Some (group2, listed2) ->
          Group.event_count group2 < Group.event_count group1
          \/ (Group.event_count group2 = Group.event_count group1
              /\ Group.user_count group2 < Group.user_count group1) ->
          (i < j)%nat)
  /\ well_keyed Sample.digest.
Proof.
  apply (digest_is_sorted Sample.project Sample.records None Sample.store
           Sample.store' Sample.digest).
  vm_compute. reflexivity.
Defined.

Lemma unresolved_records_are_dropped_witness :
  rewrite_record (Sample.record "e" 4%nat [2] 60) Sample.project
    (Attached.groups Sample.attached) (Attached.rules Sample.attached)
    Sample.store = Ok (None, Sample.store)
  /\ (forall rule,
        In rule
          (Notification.rules
             (Record_.value
                (rewritten (Attached.rules Sample.attached)
                   (Sample.record "c" 0%nat [1; 7] 80))))
        <-> exists id,
              In id [1; 7]
              /\ dict_get (Attached.rules Sample.attached) id = Some rule).
Proof.
  destruct (unresolved_records_are_dropped Sample.attached)
    as (Hdropped & Hkept & _).
  split.
  - apply Hdropped. reflexivity.
  - destruct (Hkept (Sample.record "c" 0%nat [1; 7] 80) Sample.store _
                eq_refl) as (_ & _ & Hrules).
    exact Hrules.
Defined.

Lemma pipeline_idempotent_witness :
  (exists st2,
     Pipeline.call (digest_pipeline Sample.attached) Sample.records
       Sample.store' = Ok (Sample.digest, st2)
     /\ forall event, st2 event = Sample.store' event)
  /\ forall event,
       Sample.store' event = Sample.store event
       \/ exists g,
            dict_get (Attached.groups Sample.attached)
              (Event.group_id (Sample.store event)) = Some g
            /\ Sample.store' event = Event.set_group (Sample.store event) g.
Proof.
  apply (pipeline_idempotent Sample.attached Sample.records Sample.store
           Sample.store' Sample.digest).
  vm_compute. reflexivity.
Defined.

Lemma records_listed_in_order_witness :
  (forall rule by_group group listed,
     In (rule, by_group) Sample.digest -> In (group, listed) by_group ->
     listed
     = flat_map (appended rule group)
         (survivors Sample.attached Sample.store Sample.records))
  /\ List.length
       (List.filter
          (fun l => listed_under (fst (fst l)) (snd (fst l))
                      Sample.survivor_b)
          (leaves Sample.digest)) = 2%nat.
Proof.
  destruct (records_listed_in_order Sample.attached Sample.records
              Sample.store Sample.store' Sample.digest)
    as (Hlisted & _ & Hcount & _); [vm_compute; reflexivity|].
  split; [exact Hlisted|].
  destruct (Hcount (fst Sample.survivor_b) (snd Sample.survivor_b))
    as [_ Hlength].
  - vm_compute. auto.
  - repeat constructor; simpl; intuition discriminate.
  - exact Hlength.
Defined.

(** A record that names rule 1 twice has two entries in its rule list and
    is in one list only, twice. *)
Lemma repeated_rule_is_listed_twice_in_one_list :
  exists st' rule group r,
    build_digest Sample.project [Sample.twice] (Some Sample.state)
      Sample.store = Ok (Some [(rule, [(group, [Some r; Some r])])], st')
    /\ In (group, r)
         (survivors Sample.attached Sample.store [Sample.twice])
    /\ List.length (Notification.rules (Record_.value r)) = 2%nat
    /\ List.length
         (List.filter
            (fun l => listed_under (fst (fst l)) (snd (fst l)) (group, r))
            (leaves [(rule, [(group, [Some r; Some r])])])) = 1%nat.
Proof.
  do 4 eexists. split; [vm_compute; reflexivity|].
  split; [now left|]. split; reflexivity.
Qed.
End WorkedBatch.

(** * Further properties *)

(** ** More on the key codec *)

Lemma split_length (sep : ascii) (s : string) (n : nat) :
  List.length (Py.split sep s n) = S (Nat.min (count sep s) n).
Proof.
  revert n. induction s as [|c s IH]; intros n; simpl; trivial.
  destruct n as [|m]; simpl.
  - now rewrite Nat.min_0_r.
  - destruct (Ascii.eqb c sep); simpl.
    + now rewrite IH.
    + specialize (IH (S m)).
      destruct (Py.split sep s (S m)); simpl in *; [discriminate|exact IH].
Qed.

Lemma count_contains (sep : ascii) (s : string) :
  Py.contains sep s = false <-> count sep s = O.
Proof.
  induction s as [|c s IH]; simpl; [tauto|].
  destruct (Ascii.eqb c sep); simpl; [split; discriminate|exact IH].
Qed.

Lemma count_append (sep : ascii) (s s' : string) :
  count sep (s ++ s') = (count sep s + count sep s')%nat.
Proof.
  induction s as [|c s IH]; simpl; trivial.
  destruct (Ascii.eqb c sep); simpl; now rewrite IH.
Qed.

Lemma split_no_sep (sep : ascii) (token : string) (n : nat) :
  Py.contains sep token = false -> Py.split sep token n = [token].
Proof.
  revert n. induction token as [|c token IH]; intros n; simpl; trivial.
  intros Hc. apply orb_false_elim in Hc as [Hc Htoken].
  destruct n as [|m]; trivial.
  now rewrite Hc, (IH (S m) Htoken).
Qed.

Lemma is_targeted_action_key_first (key : string) :
  is_targeted_action_key key
  = match split_unbounded ":" key with
    | token :: _ => String.eqb token TARGETED_MAIL_ACTION_SYMBOL
    | [] => false
    end.
Proof.
  unfold is_targeted_action_key.
  destruct (split_unbounded ":" key) as [|token tokens]; trivial.
  cbn [enumerate_from List.filter fst snd Nat.eqb andb].
  assert (Hrest : forall n l,
             List.filter
               (fun it : nat * string =>
                  Nat.eqb (fst it) 0
                  && String.eqb (snd it) TARGETED_MAIL_ACTION_SYMBOL)
               (enumerate_from (S n) l) = []).
  { intros n l. revert n. induction l as [|x l IH]; intros n; simpl; auto. }
  destruct (String.eqb token TARGETED_MAIL_ACTION_SYMBOL); simpl;
    now rewrite Hrest.
Qed.

Lemma split_unbounded_token (sep : ascii) (token rest : string) :
  Py.contains sep token = false ->
  exists tokens,
    split_unbounded sep (token ++ String sep rest) = token :: tokens.
Proof.
  intros Hc. unfold split_unbounded.
  destruct (String.length (token ++ String sep rest)) as [|n] eqn:E.
  - destruct token; discriminate.
  - rewrite split_token by trivial. eauto.
Qed.

Lemma str_injective (n m : Z) : Py.str n = Py.str m -> n = m.
Proof.
  intros E. pose proof (int_str n) as Hn. rewrite E, int_str in Hn.
  now injection Hn.
Qed.

Lemma split_generic_key (slug project_id : string) :
  Py.contains ":" slug = false ->
  Py.split ":" (slug ++ ":p:" ++ project_id) 2
  = [slug; "p"%string; project_id].
Proof.
  intros Hslug.
  change (":p:" ++ project_id)%string
    with (String ":" ("p" ++ String ":" project_id)).
  rewrite split_token; [|assumption].
  rewrite split_token; [|reflexivity].
  now rewrite split_maxsplit_0.
Qed.

(** X1: the generic key comes back: for a plugin whose slug has no colon
    and that the registry returns under its slug, and a project that the
    object store returns under the text of its id, [split_key] of
    [unsplit_key] is that plugin and that project. *)
Theorem generic_key_round_trip
    (plugins_get : string -> Result Plugin.t)
    (Project_objects_get : string -> Result Project.t)
    (plugin : Plugin.t) (project : Project.t) :
  Py.contains ":" (Plugin.slug plugin) = false ->
  plugins_get (Plugin.slug plugin) = Ok plugin ->
  Project_objects_get (Py.str (Project.id project)) = Ok project ->
  split_key plugins_get Project_objects_get (unsplit_key plugin project)
  = Ok (plugin, project).
Proof.
  intros Hslug Hplugin Hproject. unfold split_key, unsplit_key.
  rewrite split_generic_key by trivial.
  rewrite Hplugin. simpl. now rewrite Hproject.
Qed.

(** X2: [is_targeted_action_key] accepts every key
    [unsplit_key_for_targeted_action] builds, whatever the target type; and
    it accepts a key [unsplit_key] builds for a slug without a colon exactly
    when the slug is the symbol of targeted mail. *)
Theorem key_test_separates_the_keys :
  (forall project target_type target_id,
     is_targeted_action_key
       (unsplit_key_for_targeted_action project target_type target_id) = true)
  /\ (forall plugin project,
        Py.contains ":" (Plugin.slug plugin) = false ->
        is_targeted_action_key (unsplit_key plugin project)
        = String.eqb (Plugin.slug plugin) TARGETED_MAIL_ACTION_SYMBOL).
Proof.
  split.
  - intros project target_type target_id.
    rewrite is_targeted_action_key_first.
    unfold unsplit_key_for_targeted_action.
    change (":p:" ++ ?x)%string with (String ":" ("p:" ++ x)).
    destruct (split_unbounded_token ":" TARGETED_MAIL_ACTION_SYMBOL
                ("p:" ++ Py.str (Project.id project) ++ ":" ++ target_type
                   ++ ":" ++ Py.str match target_id with
                                    | Some n => n
                                    | None => -1
                                    end) eq_refl) as [tokens ->].
    reflexivity.
  - intros plugin project Hslug.
    rewrite is_targeted_action_key_first. unfold unsplit_key.
    change (":p:" ++ ?x)%string with (String ":" ("p:" ++ x)).
    now destruct (split_unbounded_token ":" (Plugin.slug plugin)
                    ("p:" ++ Py.str (Project.id project)) Hslug)
      as [tokens ->].
Qed.

(** X3: a key with fewer than four colons is a [ValueError] for
    [split_key_for_targeted_action], and one with fewer than two for
    [split_key], before any lookup; so the targeted decoder refuses every
    generic key whose slug has no colon. *)
Theorem short_keys_are_refused
    (plugins_get : string -> Result Plugin.t)
    (Project_objects_get : string -> Result Project.t) :
  (forall key,
     (count ":" key < 4)%nat ->
     split_key_for_targeted_action Project_objects_get key = Raise ValueError)
  /\ (forall key,
        (count ":" key < 2)%nat ->
        split_key plugins_get Project_objects_get key = Raise ValueError)
  /\ (forall plugin project,
        Py.contains ":" (Plugin.slug plugin) = false ->
        split_key_for_targeted_action Project_objects_get
          (unsplit_key plugin project) = Raise ValueError).
Proof.
  assert (Htargeted : forall key,
             (count ":" key < 4)%nat ->
             split_key_for_targeted_action Project_objects_get key
             = Raise ValueError).
  { intros key Hcount. unfold split_key_for_targeted_action.
    pose proof (split_length ":" key 4) as Hlen.
    destruct (Py.split ":" key 4) as [|? [|? [|? [|? [|? [|? ?]]]]]];
      trivial; simpl in Hlen; lia. }
  split; [exact Htargeted|]. split.
  - intros key Hcount. unfold split_key.
    pose proof (split_length ":" key 2) as Hlen.
    destruct (Py.split ":" key 2) as [|? [|? [|? [|? ?]]]];
      trivial; simpl in Hlen; lia.
  - intros plugin project Hslug. apply Htargeted.
    unfold unsplit_key. rewrite !count_append.
    apply count_contains in Hslug. rewrite Hslug.
    pose proof (str_no_colon (Project.id project)) as Hid.
    apply count_contains in Hid. rewrite Hid. simpl. lia.
Qed.

(** X4: two targeted keys for target types without a colon are equal
    exactly when the project ids, the target types and the target ids are,
    a target id of [None] counting as [-1]. *)
Theorem targeted_keys_are_distinct (project project' : Project.t)
    (target_type target_type' : string) (target_id target_id' : option Z) :
  Py.contains ":" target_type = false ->
  Py.contains ":" target_type' = false ->
  unsplit_key_for_targeted_action project target_type target_id
  = unsplit_key_for_targeted_action project' target_type' target_id'
  <-> Project.id project = Project.id project'
      /\ target_type = target_type'
      /\ match target_id with Some n => n | None => -1 end
         = match target_id' with Some n => n | None => -1 end.
Proof.
  intros Htype Htype'. unfold unsplit_key_for_targeted_action. split.
  - intros E. apply (f_equal (fun key => Py.split ":" key 4)) in E.
    rewrite !split_targeted_key in E by (trivial; apply str_no_colon).
    injection E as Eid -> Etarget.
    apply str_injective in Eid, Etarget. auto.
  - now intros (-> & -> & ->).
Qed.

Lemma int_colon (s : string) :
  Py.contains ":" s = true -> Py.int s = Raise ValueError.
Proof.
  intros Hcolon. unfold Py.int.
  destruct (NilZero.int_of_string s) as [d|] eqn:E; trivial.
  apply NilZero.sis in E. subst s. exfalso.
  destruct d as [u|u]; simpl in Hcolon.
  - now rewrite uint_no_colon in Hcolon.
  - now rewrite uint_no_colon in Hcolon.
Qed.

(** X5: the targeted decoder reads a key of five segments without looking at
    the first two.  Whatever they are, it looks the project up under the
    third segment first: a project that is not found is reported whatever
    the fifth segment is.  With the project found, a fifth segment that is
    the text of an integer gives that integer, and a fifth segment with a
    colon in it is not cut again and is no number. *)
Theorem targeted_decoder_reads_three_segments
    (Project_objects_get : string -> Result Project.t)
    (symbol marker project_id target_type target_identifier : string) :
  Py.contains ":" symbol = false ->
  Py.contains ":" marker = false ->
  Py.contains ":" project_id = false ->
  Py.contains ":" target_type = false ->
  let key :=
    (symbol ++ ":" ++ marker ++ ":" ++ project_id ++ ":" ++ target_type
       ++ ":" ++ target_identifier)%string in
  (forall e,
     Project_objects_get project_id = Raise e ->
     split_key_for_targeted_action Project_objects_get key = Raise e)
  /\ (forall project n,
        Project_objects_get project_id = Ok project ->
        target_identifier = Py.str n ->
        split_key_for_targeted_action Project_objects_get key
        = Ok (MailAdapter_new, project, target_type, n))
  /\ (forall project,
        Project_objects_get project_id = Ok project ->
        Py.contains ":" target_identifier = true ->
        split_key_for_targeted_action Project_objects_get key
        = Raise ValueError).
Proof.
  intros Hs Hm Hp Ht key.
  assert (Hkey : split_key_for_targeted_action Project_objects_get key
                 = match Project_objects_get project_id with
                   | Ok project =>
                       match Py.int target_identifier with
                       | Ok n => Ok (MailAdapter_new, project, target_type, n)
                       | Raise e => Raise e
                       end
                   | Raise e => Raise e
                   end).
  { subst key. unfold split_key_for_targeted_action.
    repeat match goal with
           | |- context [(":" ++ ?x)%string] =>
               change (":" ++ x)%string with (String ":" x)
           end.
    rewrite split_token; [|assumption].
    rewrite split_token; [|assumption].
    rewrite split_token; [|assumption].
    rewrite split_token; [|assumption].
    rewrite split_maxsplit_0.
    now destruct (Project_objects_get project_id). }
  rewrite Hkey. split; [|split].
  - now intros e ->.
  - intros project n -> ->. now rewrite int_str.
  - intros project -> Hcolon. now rewrite int_colon.
Qed.

(** ** The record constructor *)

Lemma somes_resolved (rules_by_id : dict Rule.t) (rules : list Rule.t) :
  (forall rule, In rule rules ->
     dict_get rules_by_id (Rule.id rule) = Some rule) ->
  somes (List.map (dict_get rules_by_id) (List.map Rule.id rules)) = rules.
Proof.
  induction rules as [|rule rules IH]; simpl; intros Hall; trivial.
  rewrite (Hall rule) by auto. now rewrite IH by auto.
Qed.

(** X6: a record made by [event_to_record] from an event and rules that the
    rule dictionary holds under their ids goes through [rewrite_record], when
    the group of the event resolves, to a record with the id of the event as
    its key, the event, those same rules and the same timestamp; the store
    is untouched by the constructor. *)
Theorem event_to_record_then_rewrite (Event_timestamp : EventRef -> Z)
    (event : EventRef) (rules : list Rule.t) (project : Project.t)
    (groups : dict Group.t) (rules_by_id : dict Rule.t) (st : Store)
    (group : Group.t) :
  dict_get groups (Event.group_id (st event)) = Some group ->
  (forall rule, In rule rules ->
     dict_get rules_by_id (Rule.id rule) = Some rule) ->
  exists record,
    event_to_record Event_timestamp event rules st = Ok (record, st)
    /\ Record_.key record = Event.event_id (st event)
    /\ Notification.rules (Record_.value record) = List.map Rule.id rules
    /\ rewrite_record record project groups rules_by_id st
       = Ok (Some {| Record_.key := Event.event_id (st event);
                     Record_.value :=
                       {| Notification.event := event;
                          Notification.rules := rules |};
                     Record_.timestamp := Event_timestamp event |},
             Store_set st event (Event.set_group (st event) group)).
Proof.
  intros Hgroup Hrules. eexists. split; [reflexivity|].
  split; [reflexivity|]. split; [reflexivity|].
  rewrite rewrite_record_run. unfold resolved_group. simpl. rewrite Hgroup.
  unfold rewritten. simpl. now rewrite somes_resolved.
Qed.

(** ** The pipeline engine *)



Lemma call_append {A B C} (self : Pipeline.t A B) (operation : B -> M C)
    (sequence : A) (st : Store) :
  Pipeline.call (Pipeline.append self operation) sequence st
  = match Pipeline.call self sequence st with
    | Ok (x, st') => operation x st'
    | Raise e => Raise e
    end.
Proof. reflexivity. Qed.

(** X7: stages whose functions neither touch the store nor raise compose as
    the list functions do: [map], [filter], [reduce] and [apply] after a
    pipeline give [apply] of the fold of the filtered mapped sequence, the
    initializer of [reduce] being given the sequence that enters it.  The
    accumulator of [reduce] is a list or a dictionary, as it is in
    [build_digest]: [reduce] takes the length of its result and [apply] the
    length of what it is given. *)
Theorem pure_stages_compose {A B C D E} (self : Pipeline.t A (list B))
    (f : B -> C) (p : C -> bool) (g : list D -> C -> list D)
    (initializer : list C -> list D) (h : list D -> E) (sequence : A)
    (st : Store) :
  Pipeline.call
    (Pipeline.apply
       (Pipeline.reduce
          (Pipeline.filter
             (Pipeline.map self (fun x => ret (f x)))
             (fun x => ret (p x)))
          (fun acc x => ret (g acc x))
          (fun entering => ret (initializer entering)))
       (fun result => ret (h result)))
    sequence st
  = match Pipeline.call self sequence st with
    | Ok (l, st') =>
        let entering := List.filter p (List.map f l) in
        Ok (h (fold_left g entering (initializer entering)), st')
    | Raise e => Raise e
    end.
Proof.
  unfold Pipeline.apply, Pipeline.reduce, Pipeline.filter, Pipeline.map.
  rewrite !call_append.
  destruct (Pipeline.call self sequence st) as [[l st']|]; trivial.
  rewrite (mapM_reader _ f) by reflexivity.
  rewrite (filterM_reader _ p) by reflexivity.
  unfold bind, ret at 1.
  now rewrite (foldM_reader _ g) by reflexivity.
Qed.


(** ** What [attach_state] returns *)

(** X9: with distinct keys in the three dictionaries, what [attach_state]
    returns is determined: the groups in their order, each with the project
    attached, its event count and user count those filed under its id, or 0,
    and nothing else changed; the rules in their order with the project
    attached. *)
Theorem attach_state_result (project : Project.t) (groups : dict Group.t)
    (rules : dict Rule.t) (event_counts user_counts : dict Z)
    (state : Attached.t) :
  NoDup (dict_keys groups) ->
  NoDup (dict_keys event_counts) ->
  NoDup (dict_keys user_counts) ->
  attach_state project groups rules event_counts user_counts = Ok state ->
  Attached.project state = project
  /\ Attached.rules state
     = List.map (fun kv => (fst kv, Rule.set_project (snd kv) project)) rules
  /\ Attached.groups state
     = List.map (fun kv =>
         (fst kv,
          {| Group.id := Group.id (snd kv);
             Group.project_id := Group.project_id (snd kv);
             Group.status := Group.status (snd kv);
             Group.project := Some project;
             Group.event_count := dict_get_default event_counts (fst kv) 0;
             Group.user_count := dict_get_default user_counts (fst kv) 0 |}))
         groups.
Proof.
  intros Hgroups Hevents Husers. rewrite attach_state_eq.
  destruct (forallb _ groups); [|discriminate].
  destruct (forallb _ rules); [|discriminate].
  destruct (Result_fold _ event_counts _) as [groups1|] eqn:E1;
    [|discriminate].
  simpl.
  destruct (Result_fold _ user_counts groups1) as [groups2|] eqn:E2;
    [|discriminate].
  simpl. intros [= <-]. simpl. repeat split.
  apply (overlay_map Group.set_event_count event_counts Hevents) in E1;
    [|unfold dict_keys; rewrite List.map_map; exact Hgroups].
  apply (overlay_map Group.set_user_count user_counts Husers) in E2;
    [|rewrite E1; unfold dict_keys; rewrite !List.map_map; exact Hgroups].
  rewrite E2, E1, !List.map_map. apply List.map_ext. intros [id group]. simpl.
  unfold dict_get_default.
  destruct (dict_get event_counts id), (dict_get user_counts id); reflexivity.
Qed.

(** ** The exceptions of [build_digest] *)


Section Exceptions.
Context `{Externals}.

End Exceptions.

(** ** The two sorts *)

Section Stability.
Context {A K : Type} (ltb : K -> K -> bool) (key : A -> K) (p : A -> bool).

(** [p] picks elements none of which is less than another: a class of
    ties. *)
Hypothesis ties :
  forall x y, p x = true -> p y = true -> ltb (key x) (key y) = false.

Lemma insert_reverse_ties (x : A) (l : list A) :
  List.filter p (insert_reverse ltb key x l) = List.filter p (x :: l).
Proof.
  induction l as [|y l IH]; trivial.
  cbn [insert_reverse].
  destruct (ltb (key x) (key y)) eqn:E; trivial.
  cbn [List.filter] in *. rewrite IH.
  destruct (p x) eqn:Hx, (p y) eqn:Hy; trivial.
  rewrite (ties x y Hx Hy) in E. discriminate.
Qed.

Lemma sorted_reverse_ties (l : list A) :
  List.filter p (sorted_reverse ltb key l) = List.filter p l.
Proof.
  induction l as [|x l IH]; trivial.
  cbn [sorted_reverse fold_right]. rewrite insert_reverse_ties.
  cbn [List.filter]. fold (sorted_reverse ltb key l). now rewrite IH.
Qed.
End Stability.

Lemma Forall2_map_r {A B} (P : A -> B -> Prop) (F : A -> B) (l : list A) :
  (forall x, In x l -> P x (F x)) -> Forall2 P l (List.map F l).
Proof.
  induction l as [|x l IH]; simpl; intros HP; constructor; auto.
Qed.

(** X11: on a digest with distinct keys, [sort_group_contents] keeps the
    rules in place and gives each the same groups with the same lists, in
    an order in which no group is followed by one with a greater pair of
    event count and user count, and in which groups with the same pair
    stand as they stood. *)
Theorem sort_group_contents_spec (d : Digest) :
  well_keyed d ->
  Forall2
    (fun before after =>
       fst after = fst before
       /\ Permutation (snd after) (snd before)
       /\ descending tuple_ltb
            (fun x => (Group.event_count (fst x), Group.user_count (fst x)))
            (snd after)
       /\ forall event_count user_count,
            let tie := fun x : Group.t * list (option (Record_.t Rule.t)) =>
              (Group.event_count (fst x) =? event_count)
              && (Group.user_count (fst x) =? user_count) in
            List.filter tie (snd after) = List.filter tie (snd before))
    d (sort_group_contents d).
Proof.
  intros Hd. rewrite sort_group_contents_eq by trivial.
  apply Forall2_map_r. intros [rule by_group] _. cbn [fst snd].
  split; [reflexivity|].
  split; [apply sorted_reverse_Permutation|].
  split.
  - apply sorted_reverse_descending.
    + exact tuple_ltb_asym.
    + exact tuple_ltb_negtrans.
  - intros event_count user_count. cbv zeta. apply sorted_reverse_ties.
    intros x y Hx Hy.
    apply not_true_is_false. rewrite tuple_ltb_spec. simpl. lia.
Qed.

(** X12: on a mapping with distinct keys, [sort_rule_groups] returns the
    same rules with the same groups, in an order in which no rule is
    followed by one with more groups, and in which rules with the same
    number of groups stand as they stood. *)
Theorem sort_rule_groups_spec (d : Digest) :
  NoDup (pks d) ->
  Permutation (sort_rule_groups d) d
  /\ descending len_ltb (fun x => List.length (snd x)) (sort_rule_groups d)
  /\ forall n,
       let tie := fun x : Rule.t * odict Group.t (list (option (Record_.t Rule.t))) =>
         Nat.eqb (List.length (snd x)) n in
       List.filter tie (sort_rule_groups d) = List.filter tie d.
Proof.
  intros Hd. unfold sort_rule_groups.
  rewrite OrderedDict_items by now apply sorted_reverse_NoDup_pks.
  split; [apply sorted_reverse_Permutation|]. split.
  - apply sorted_reverse_descending.
    + exact len_ltb_asym.
    + exact len_ltb_negtrans.
  - intros n. cbv zeta. apply sorted_reverse_ties.
    intros x y Hx Hy.
    apply Nat.eqb_eq in Hx, Hy. unfold len_ltb. apply Nat.ltb_ge.
    cbv beta. unfold Digest, odict in *.
    replace (List.length (snd y)) with n by (symmetry; exact Hy).
    replace (List.length (snd x)) with n by (symmetry; exact Hx).
    apply Nat.le_refl.
Qed.

(** ** The fold of [group_records] *)

Lemma defaultdict_update_not_nil {K V} `{Model K} (default : V)
    (d : odict K V) (k : K) (f : V -> V) :
  defaultdict_update default d k f <> [].
Proof.
  destruct d as [|[k' v] d]; simpl; [discriminate|].
  now destruct (pk k' =? pk k).
Qed.

Lemma insert_record_nil (d : Digest) (g : Group.t) (r : Record_.t Rule.t) :
  insert_record d g r = []
  <-> d = [] /\ Notification.rules (Record_.value r) = [].
Proof.
  unfold insert_record.
  destruct (Notification.rules (Record_.value r)) as [|rule rules]; simpl.
  - tauto.
  - split; [|now intros [_ [=]]].
    intros E. exfalso. revert E.
    generalize (defaultdict_update_not_nil [] d rule
                  (fun by_group =>
                     defaultdict_update [] by_group g
                       (fun records => records ++ [Some r]))).
    generalize (defaultdict_update [] d rule
                  (fun by_group =>
                     defaultdict_update [] by_group g
                       (fun records => records ++ [Some r]))).
    induction rules as [|rule' rules IH]; simpl; intros d' Hd'; [exact Hd'|].
    apply IH, defaultdict_update_not_nil.
Qed.

Lemma grouped_nil (survs : list (Group.t * Record_.t Rule.t)) :
  grouped survs = []
  <-> forall g r, In (g, r) survs -> Notification.rules (Record_.value r) = [].
Proof.
  unfold grouped.
  enough (Hgen : forall d,
            fold_left (fun groups gr =>
              insert_record groups (fst gr) (snd gr)) survs d = []
            <-> d = []
                /\ forall g r, In (g, r) survs ->
                               Notification.rules (Record_.value r) = []).
  { rewrite Hgen. tauto. }
  induction survs as [|[g r] survs IH]; simpl; intros d.
  - tauto.
  - rewrite IH, insert_record_nil. split.
    + intros [[-> Hr] Hall]. split; trivial.
      intros g' r' [[= <- <-]|Hin]; eauto.
    + intros [-> Hall]. split; [split|]; eauto.
Qed.

Lemma sorted_digest_nil (d : Digest) : sorted_digest d = [] <-> d = [].
Proof.
  split.
  - intros E. unfold sorted_digest in E.
    apply (f_equal (@List.length _)) in E.
    rewrite (Permutation_length (sorted_reverse_Permutation _ _ _)),
      length_map in E.
    now destruct d.
  - now intros ->.
Qed.

Lemma somes_nil {A} (l : list (option A)) :
  somes l = [] <-> forall x, In x l -> x = None.
Proof.
  induction l as [|[y|] l IH]; simpl.
  - tauto.
  - split; [discriminate|]. intros Hall. now specialize (Hall _ (or_introl eq_refl)).
  - rewrite IH. split; [intros Hall x [<-|Hin]; auto|auto].
Qed.

Lemma pks_insert_record (d : Digest) (g : Group.t) (r : Record_.t Rule.t) :
  exists added, pks (insert_record d g r) = pks d ++ added.
Proof.
  unfold insert_record.
  generalize (Notification.rules (Record_.value r)). intros rules. revert d.
  induction rules as [|rule rules IH]; simpl; intros d.
  - exists []. now rewrite app_nil_r.
  - destruct (IH (defaultdict_update [] d rule (fun by_group =>
                    defaultdict_update [] by_group g
                      (fun records => records ++ [Some r])))) as [added E].
    destruct (pks_defaultdict_update [] d rule (fun by_group =>
                defaultdict_update [] by_group g
                  (fun records => records ++ [Some r])))
      as [[_ E']|[_ E']].
    + exists added. etransitivity; [exact E|].
      apply (f_equal (fun l => l ++ added)). exact E'.
    + exists ([pk rule] ++ added). etransitivity; [exact E|].
      rewrite app_assoc.
      apply (f_equal (fun l => l ++ added)). exact E'.
Qed.

(** X13: [group_records] only appends: it leaves the store alone, keeps the
    rules that are keys in their places, new ones coming after them, and
    every list it had is the beginning of the list it has afterwards. *)
Theorem group_records_only_appends (groups groups' : Digest)
    (record : option (Record_.t Rule.t)) (st st' : Store) :
  group_records groups record st = Ok (groups', st') ->
  st' = st
  /\ (exists added, pks groups' = pks groups ++ added)
  /\ forall rule group,
       exists added, leaf groups' rule group = leaf groups rule group ++ added.
Proof.
  destruct record as [r|]; [|discriminate].
  unfold group_records, bind, Event_group.
  destruct (Event.group (st (Notification.event (Record_.value r))))
    as [g|]; [|discriminate].
  unfold ret. intros [= <- <-]. split; trivial.
  change (fold_left _ (Notification.rules (Record_.value r)) groups)
    with (insert_record groups g r).
  split; [apply pks_insert_record|].
  intros rule group. rewrite leaf_insert_record. eauto.
Qed.

Section EmptyDigest.
Context `{Externals}.

(** X14: the digest of the pipeline is the empty mapping exactly when no
    record of the batch whose group resolves and reads UNRESOLVED has a rule
    id that resolves. *)
Theorem digest_empty_iff (state : Attached.t) (records : list (Record_.t Z))
    (st st' : Store) (digest : Digest) :
  Pipeline.call (digest_pipeline state) records st = Ok (digest, st') ->
  digest = []
  <-> forall record g id,
        In record records ->
        resolved_group (Attached.groups state) st record = Some g ->
        Group_get_status g = UNRESOLVED ->
        In id (Notification.rules (Record_.value record)) ->
        dict_get (Attached.rules state) id = None.
Proof.
  rewrite digest_pipeline_sorted. intros [= <- _].
  rewrite sorted_digest_nil, grouped_nil. split.
  - intros Hall record g id Hin Hg Hs Hid.
    assert (Hr : In (g, rewritten (Attached.rules state) record)
                   (survivors state st records))
      by (apply survivors_In; eauto).
    apply Hall in Hr. simpl in Hr.
    apply (proj1 (somes_nil _) Hr). now apply in_map.
  - intros Hall g r Hin.
    apply survivors_In in Hin as (record & Hin & Hg & Hs & ->). simpl.
    apply somes_nil. intros x Hx.
    apply in_map_iff in Hx as (id & <- & Hid). eauto.
Qed.

End EmptyDigest.

(** X15: with the state given, [build_digest] asks no service but
    [get_status] and does not look at its project argument: two runs agree
    whenever the status read is the same, whatever the object store, the
    counter service and the project argument are. *)
Theorem build_digest_with_state (services services' : Externals)
    (project project' : Project.t) (records : list (Record_.t Z))
    (state : State.t) (st : Store) :
  (forall g, @Group_get_status services g = @Group_get_status services' g) ->
  @build_digest services project records (Some state) st
  = @build_digest services' project' records (Some state) st.
Proof.
  intros Hstatus. destruct records as [|record records]; trivial.
  rewrite !build_digest_cons.
  destruct (attach_state _ _ _ _ _) as [attached|]; trivial.
  rewrite !digest_pipeline_run.
  assert (E : @survivors services attached st (record :: records)
              = @survivors services' attached st (record :: records)).
  { unfold survivors. apply flat_map_ext. intros record'.
    destruct (resolved_group _ st record'); trivial.
    now rewrite Hstatus. }
  now rewrite E.
Qed.

(** ** The further properties on the worked batch *)

Lemma generic_key_round_trip_witness :
  Py.contains ":" (Plugin.slug Sample.plugin) = false
  /\ split_key Sample.plugins_get Sample.Project_objects_get
       (unsplit_key Sample.plugin Sample.project)
     = Ok (Sample.plugin, Sample.project).
Proof.
  split; [reflexivity|].
  apply (generic_key_round_trip Sample.plugins_get Sample.Project_objects_get
           Sample.plugin Sample.project); reflexivity.
Defined.

Lemma key_test_separates_the_keys_witness :
  is_targeted_action_key
    (unsplit_key_for_targeted_action Sample.project "Team" (Some 5)) = true
  /\ is_targeted_action_key (unsplit_key Sample.plugin Sample.project)
     = String.eqb "mail" TARGETED_MAIL_ACTION_SYMBOL.
Proof.
  split.
  - apply (proj1 key_test_separates_the_keys Sample.project "Team"%string
             (Some 5)).
  - apply (proj2 key_test_separates_the_keys Sample.plugin Sample.project).
    reflexivity.
Defined.

Lemma short_keys_are_refused_witness :
  (count ":" "targeted_mail:p:1:Team" < 4)%nat
  /\ split_key_for_targeted_action Sample.Project_objects_get
       "targeted_mail:p:1:Team" = Raise ValueError
  /\ (count ":" "mail:p1" < 2)%nat
  /\ split_key Sample.plugins_get Sample.Project_objects_get "mail:p1"
     = Raise ValueError
  /\ split_key_for_targeted_action Sample.Project_objects_get
       (unsplit_key Sample.plugin Sample.project) = Raise ValueError.
Proof.
  destruct (short_keys_are_refused Sample.plugins_get
              Sample.Project_objects_get) as (Htargeted & Hgeneric & Hcross).
  split; [vm_compute; lia|].
  split; [apply Htargeted; vm_compute; lia|].
  split; [vm_compute; lia|].
  split; [apply Hgeneric; vm_compute; lia|].
  apply Hcross. reflexivity.
Defined.

Lemma targeted_keys_are_distinct_witness :
  unsplit_key_for_targeted_action Sample.project "Team" None
  = unsplit_key_for_targeted_action Sample.project "Team" (Some (-1))
  /\ (unsplit_key_for_targeted_action Sample.project "Team" (Some 5)
      = unsplit_key_for_targeted_action Sample.other_project "Team" (Some 5)
      <-> 1 = 2 /\ "Team"%string = "Team"%string /\ 5 = 5).
Proof.
  split.
  - apply (targeted_keys_are_distinct Sample.project Sample.project
             "Team" "Team" None (Some (-1))); [reflexivity|reflexivity|].
    repeat split.
  - apply (targeted_keys_are_distinct Sample.project Sample.other_project
             "Team" "Team" (Some 5) (Some 5)); reflexivity.
Defined.

Lemma targeted_decoder_reads_three_segments_witness :
  split_key_for_targeted_action Sample.Project_objects_get
    ("mail" ++ ":" ++ "q" ++ ":" ++ "1" ++ ":" ++ "Team" ++ ":" ++ "5")
  = Ok (MailAdapter_new, Sample.project, "Team"%string, 5)
  /\ split_key_for_targeted_action Sample.Project_objects_get
       ("mail" ++ ":" ++ "q" ++ ":" ++ "7" ++ ":" ++ "Team" ++ ":" ++ "five")
     = Raise DoesNotExist
  /\ split_key_for_targeted_action Sample.Project_objects_get
       ("mail" ++ ":" ++ "q" ++ ":" ++ "1" ++ ":" ++ "Team" ++ ":" ++ "b:5")
     = Raise ValueError.
Proof.
  split; [|split].
  - apply (proj1 (proj2 (targeted_decoder_reads_three_segments
                           Sample.Project_objects_get "mail" "q" "1" "Team"
                           "5" eq_refl eq_refl eq_refl eq_refl))
             Sample.project 5); reflexivity.
  - apply (proj1 (targeted_decoder_reads_three_segments
                    Sample.Project_objects_get "mail" "q" "7" "Team" "five"
                    eq_refl eq_refl eq_refl eq_refl) DoesNotExist).
    reflexivity.
  - apply (proj2 (proj2 (targeted_decoder_reads_three_segments
                           Sample.Project_objects_get "mail" "q" "1" "Team"
                           "b:5" eq_refl eq_refl eq_refl eq_refl))
             Sample.project); reflexivity.
Defined.

Section WorkedStages.
#[local] Existing Instance Sample.externals.

Lemma event_to_record_then_rewrite_witness :
  exists record,
    event_to_record Sample.Event_timestamp 1%nat
      [Sample.rule 2 1; Sample.rule 1 1] Sample.store
    = Ok (record, Sample.store)
    /\ Record_.key record = "event"%string
    /\ Notification.rules (Record_.value record) = [2; 1]
    /\ rewrite_record record Sample.project Sample.groups Sample.rules
         Sample.store
       = Ok (Some {| Record_.key := "event";
                     Record_.value :=
                       {| Notification.event := 1%nat;
                          Notification.rules :=
                            [Sample.rule 2 1; Sample.rule 1 1] |};
                     Record_.timestamp := 90 |},
             Store_set Sample.store 1%nat
               (Event.set_group (Sample.store 1%nat)
                  (Sample.group 11 1 UNRESOLVED))).
Proof.
  apply (event_to_record_then_rewrite Sample.Event_timestamp 1%nat
           [Sample.rule 2 1; Sample.rule 1 1] Sample.project Sample.groups
           Sample.rules Sample.store (Sample.group 11 1 UNRESOLVED)).
  - reflexivity.
  - intros rule [<-|[<-|[]]]; reflexivity.
Defined.


Lemma attach_state_result_witness :
  attach_state Sample.project Sample.groups Sample.rules Sample.event_counts
    Sample.user_counts = Ok Sample.attached
  /\ Attached.project Sample.attached = Sample.project
  /\ Attached.rules Sample.attached
     = List.map (fun kv => (fst kv, Rule.set_project (snd kv) Sample.project))
         Sample.rules
  /\ Attached.groups Sample.attached
     = List.map (fun kv =>
         (fst kv,
          {| Group.id := Group.id (snd kv);
             Group.project_id := Group.project_id (snd kv);
             Group.status := Group.status (snd kv);
             Group.project := Some Sample.project;
             Group.event_count :=
               dict_get_default Sample.event_counts (fst kv) 0;
             Group.user_count :=
               dict_get_default Sample.user_counts (fst kv) 0 |}))
         Sample.groups.
Proof.
  split; [reflexivity|].
  apply (attach_state_result Sample.project Sample.groups Sample.rules
           Sample.event_counts Sample.user_counts Sample.attached).
  - repeat (constructor; [simpl; intuition discriminate|]). constructor.
  - repeat (constructor; [simpl; intuition discriminate|]). constructor.
  - repeat (constructor; [simpl; intuition discriminate|]). constructor.
  - reflexivity.
Defined.


Lemma sort_group_contents_spec_witness :
  well_keyed Sample.unsorted
  /\ Forall2
       (fun before after =>
          fst after = fst before
          /\ Permutation (snd after) (snd before)
          /\ descending tuple_ltb
               (fun x => (Group.event_count (fst x), Group.user_count (fst x)))
               (snd after)
          /\ forall event_count user_count,
               let tie :=
                 fun x : Group.t * list (option (Record_.t Rule.t)) =>
                   (Group.event_count (fst x) =? event_count)
                   && (Group.user_count (fst x) =? user_count) in
               List.filter tie (snd after) = List.filter tie (snd before))
       Sample.unsorted (sort_group_contents Sample.unsorted).
Proof.
  assert (Hkeys : well_keyed Sample.unsorted).
  { split.
    - repeat (constructor; [simpl; intuition discriminate|]). constructor.
    - repeat constructor; simpl; intuition discriminate. }
  split; [exact Hkeys|].
  apply (sort_group_contents_spec Sample.unsorted Hkeys).
Defined.

Lemma sort_rule_groups_spec_witness :
  NoDup (pks Sample.unsorted)
  /\ Permutation (sort_rule_groups Sample.unsorted) Sample.unsorted
  /\ descending len_ltb (fun x => List.length (snd x))
       (sort_rule_groups Sample.unsorted).
Proof.
  assert (Hkeys : NoDup (pks Sample.unsorted)).
  { repeat (constructor; [simpl; intuition discriminate|]). constructor. }
  split; [exact Hkeys|].
  destruct (sort_rule_groups_spec Sample.unsorted Hkeys) as (Hp & Hd & _).
  split; [exact Hp|exact Hd].
Defined.

Lemma group_records_only_appends_witness :
  exists groups',
    group_records Sample.unsorted (Some (snd Sample.survivor_b))
      Sample.store'
    = Ok (groups', Sample.store')
    /\ (exists added, pks groups' = pks Sample.unsorted ++ added)
    /\ forall rule group,
         exists added,
           leaf groups' rule group
           = leaf Sample.unsorted rule group ++ added.
Proof.
  exists (insert_record Sample.unsorted (fst Sample.survivor_b)
            (snd Sample.survivor_b)).
  split; [reflexivity|].
  apply (group_records_only_appends Sample.unsorted _
           (Some (snd Sample.survivor_b)) Sample.store' Sample.store').
  reflexivity.
Defined.

Lemma digest_empty_iff_witness :
  Sample.digest = []
  <-> forall record g id,
        In record Sample.records ->
        resolved_group (Attached.groups Sample.attached) Sample.store record
        = Some g ->
        Group_get_status g = UNRESOLVED ->
        In id (Notification.rules (Record_.value record)) ->
        dict_get (Attached.rules Sample.attached) id = None.
Proof.
  apply (digest_empty_iff Sample.attached Sample.records Sample.store
           Sample.store' Sample.digest).
  vm_compute. reflexivity.
Defined.

Lemma build_digest_with_state_witness :
  @build_digest Sample.externals Sample.project Sample.records
    (Some Sample.state) Sample.store
  = @build_digest Sample.bare_externals Sample.other_project Sample.records
      (Some Sample.state) Sample.store.
Proof.
  apply (build_digest_with_state Sample.externals Sample.bare_externals
           Sample.project Sample.other_project Sample.records Sample.state
           Sample.store).
  intros g. reflexivity.
Defined.

End WorkedStages.
